(** * Schema block scanner, generator filter and reconstructor

    A shallow embedding of [generator/schema_parser.go]: the line-oriented
    scanner [parseBlocks] / [parseBlockAt], the selection loop of
    [FilterByGenerator] and the serializer [reconstructSchema], followed by
    the properties of the schema specification checked against them.

    Go strings are byte strings; they are modelled by [string] (one [ascii]
    per byte).  Line indices ([int] values bounded by [len(lines)]) are
    [nat]; the brace counter, which can go below zero, is a [Z]. *)

From Stdlib Require Import Strings.String Strings.Ascii Lists.List.
From Stdlib Require Import ZArith.ZArith Bool.Bool Arith.PeanoNat.
From Stdlib Require Import micromega.Lia Sorting.Sorted.
Import ListNotations.
Open Scope string_scope.
Open Scope list_scope.

(* ================================================================= *)
(** ** The part of Go's [strings] package the parser calls *)

Module GoStrings.

Definition code (c : ascii) : nat := nat_of_ascii c.

(** [unicode.IsSpace] on the UTF-8 encoding.  One byte: tab, LF, VT, FF,
    CR and space.  Two bytes: U+0085 and U+00A0.  Three bytes: U+1680,
    U+2000..U+200A, U+2028, U+2029, U+202F, U+205F and U+3000. *)
Definition space1 (c : ascii) : bool :=
  let n := code c in
  (((9 <=? n) && (n <=? 13)) || (n =? 32))%nat.

Definition space2 (c d : ascii) : bool :=
  ((code c =? 0xC2) && ((code d =? 0x85) || (code d =? 0xA0)))%nat.

Definition space3 (c d e : ascii) : bool :=
  let '(a, b, n) := (code c, code d, code e) in
  (((a =? 0xE1) && (b =? 0x9A) && (n =? 0x80))
   || ((a =? 0xE2) && (b =? 0x80)
       && (((0x80 <=? n) && (n <=? 0x8A)) || (n =? 0xA8) || (n =? 0xA9) || (n =? 0xAF)))
   || ((a =? 0xE2) && (b =? 0x81) && (n =? 0x9F))
   || ((a =? 0xE3) && (b =? 0x80) && (n =? 0x80)))%nat.

(** The rune walk of [TrimSpace] and [Fields], as far as it matters: a
    string is cut into white-space runes (flag [true], one to three bytes)
    and other bytes (flag [false]).  A byte that does not start a
    white-space rune is passed one at a time; the bytes after it inside
    the same rune are continuation bytes (0x80..0xBF) and none of them
    starts a white-space rune, so the cut agrees with UTF-8 decoding, also
    on invalid input, where Go advances one byte as well. *)
Fixpoint runes (s : string) : list (bool * string) :=
  match s with
  | EmptyString => []
  | String c s1 =>
      if space1 c then (true, String c "") :: runes s1 else
      match s1 with
      | String d s2 =>
          if space2 c d then (true, String c (String d "")) :: runes s2 else
          match s2 with
          | String e s3 =>
              if space3 c d e
              then (true, String c (String d (String e ""))) :: runes s3
              else (false, String c "") :: runes s1
          | EmptyString => (false, String c "") :: runes s1
          end
      | EmptyString => (false, String c "") :: runes s1
      end
  end.

Fixpoint dropSpace (rs : list (bool * string)) : list (bool * string) :=
  match rs with
  | (true, _) :: rs' => dropSpace rs'
  | _ => rs
  end.

Definition bytesOf (rs : list (bool * string)) : string :=
  String.concat "" (map snd rs).

(** [strings.TrimSpace]: leading and trailing white space removed. *)
Definition TrimSpace (s : string) : string :=
  bytesOf (rev (dropSpace (rev (dropSpace (runes s))))).

(** [strings.Fields]: the maximal runs of non-white-space bytes. *)
Fixpoint fieldsAux (rs : list (bool * string)) (cur : option string) : list string :=
  match rs with
  | [] => match cur with Some f => [f] | None => [] end
  | (true, _) :: rs' =>
      match cur with
      | Some f => f :: fieldsAux rs' None
      | None => fieldsAux rs' None
      end
  | (false, b) :: rs' =>
      fieldsAux rs' (Some (match cur with Some f => (f ++ b)%string | None => b end))
  end.

Definition Fields (s : string) : list string := fieldsAux (runes s) None.

(** [strings.HasPrefix]. *)
Definition HasPrefix (s pre : string) : bool := String.prefix pre s.

(** [strings.Index]: byte offset of the first occurrence, or -1. *)
Definition Index (s substr : string) : Z :=
  match String.index 0 substr s with
  | Some n => Z.of_nat n
  | None => (-1)%Z
  end.

(** [strings.Contains]. *)
Definition Contains (s substr : string) : bool := (0 <=? Index s substr)%Z.

(** [strings.Split] for a separator of one byte, the only kind the parser
    passes: always at least one piece, one more than there are
    separators. *)
Fixpoint Split (s : string) (sep : ascii) : list string :=
  match s with
  | EmptyString => [""]
  | String c s' =>
      if Ascii.eqb c sep then "" :: Split s' sep
      else match Split s' sep with
           | piece :: pieces => String c piece :: pieces
           | [] => [String c ""]
           end
  end.

(** [strings.Join]. *)
Definition Join (elems : list string) (sep : string) : string :=
  String.concat sep elems.

End GoStrings.
Import GoStrings.

Definition LF : ascii := "010"%char.
Definition nl : string := String LF "".

(* ================================================================= *)
(** ** Data model *)

(** [SchemaBlock]; the field [Type] is spelled [Type_]. *)
Record SchemaBlock : Set := mkBlock {
  Type_ : string;
  Name : string;
  Content : string;
  StartPos : nat;
  EndPos : nat
}.

(** The zero value [SchemaBlock{}]. *)
Definition zeroBlock : SchemaBlock := mkBlock "" "" "" 0 0.

Record SchemaParser : Set := { content : string }.

Definition NewSchemaParser (c : string) : SchemaParser := {| content := c |}.

(** The two errors [fmt.Errorf] builds in [FilterByGenerator]. *)
Inductive error : Set :=
| ErrGeneratorNotFound (generatorName : string)
| ErrParseBlocks (wrapped : error).

Fixpoint Error (e : error) : string :=
  match e with
  | ErrGeneratorNotFound g => ("generator '" ++ g ++ "' not found in schema")%string
  | ErrParseBlocks w => ("failed to parse schema blocks: " ++ Error w)%string
  end.

(* ================================================================= *)
(** ** parseBlockAt *)

Definition blockTypes : list string := ["generator"; "datasource"; "model"; "enum"].

(** The loop over [blockTypes]: the first keyword [bt] with [bt + " "] a
    prefix of the trimmed line, and the second field of the line as name. *)
Fixpoint matchBlockType (line : string) (bts : list string) : string * string :=
  match bts with
  | [] => ("", "")
  | bt :: rest =>
      if HasPrefix line (bt ++ " ")%string
      then (bt, let parts := Fields line in
                if (2 <=? List.length parts)%nat then nth 1 parts "" else "")
      else matchBlockType line rest
  end.

(** The inner loop [for _, char := range currentLine]: the counter after the
    line, and whether the [goto blockComplete] was taken.  Braces are ASCII,
    so ranging over runes and over bytes count the same. *)
Fixpoint countBraces (chars : string) (braceCount : Z) : Z * bool :=
  match chars with
  | EmptyString => (braceCount, false)
  | String char rest =>
      if Ascii.eqb char "{" then countBraces rest (braceCount + 1)
      else if Ascii.eqb char "}" then
        let braceCount := (braceCount - 1)%Z in
        if (braceCount =? 0)%Z then (braceCount, true)
        else countBraces rest braceCount
      else countBraces rest braceCount
  end.

(** The outer loop [for i := startLine; i < len(lines); i++] over the lines
    still to read: the final [braceCount], [contentLines] and [endLine]. *)
Fixpoint scanLines (rest : list string) (i : nat) (braceCount : Z)
    (contentLines : list string) (endLine : nat) : Z * list string * nat :=
  match rest with
  | [] => (braceCount, contentLines, endLine)
  | currentLine :: rest' =>
      let contentLines := contentLines ++ [currentLine] in
      match countBraces currentLine braceCount with
      | (braceCount, true) => (braceCount, contentLines, i)
      | (braceCount, false) => scanLines rest' (i + 1) braceCount contentLines endLine
      end
  end.

(** [parseBlockAt]; its callers pass [startLine < len(lines)]. *)
Definition parseBlockAt (lines : list string) (startLine : nat)
    : SchemaBlock * nat * bool :=
  let line := TrimSpace (nth startLine lines "") in
  let '(blockType, blockName) := matchBlockType line blockTypes in
  if blockType =? "" then (zeroBlock, 0, false) else
  let openBracePos := Index line "{" in
  let openBracePos :=
    if (openBracePos =? -1)%Z
    then if existsb (fun l => Contains l "{") (skipn (startLine + 1) lines)
         then 0%Z else (-1)%Z
    else openBracePos in
  if (openBracePos =? -1)%Z then (zeroBlock, 0, false) else
  let '(braceCount, contentLines, endLine) :=
    scanLines (skipn startLine lines) startLine 0%Z [] startLine in
  if negb (braceCount =? 0)%Z then (zeroBlock, 0, false) else
  (mkBlock blockType blockName (Join contentLines nl) startLine endLine,
   endLine, true).

(* ================================================================= *)
(** ** parseBlocks *)

Definition commentBlock (lines : list string) (i : nat) : SchemaBlock :=
  mkBlock "comment" "" (nth i lines "") i i.

Definition otherBlock (lines : list string) (i : nat) : SchemaBlock :=
  mkBlock "other" "" (nth i lines "") i i.

(** The loop [for i < len(lines)].  Every turn moves [i] forward, so
    [len(lines) - i] turns are enough; [fuel] bounds the number of turns. *)
Fixpoint parseLoop (fuel : nat) (lines : list string) (i : nat)
    (blocks : list SchemaBlock) : list SchemaBlock :=
  match fuel with
  | O => blocks
  | S fuel' =>
      if negb (i <? List.length lines)%nat then blocks else
      let line := TrimSpace (nth i lines "") in
      if line =? "" then parseLoop fuel' lines (i + 1) blocks
      else if HasPrefix line "//"
      then parseLoop fuel' lines (i + 1) (blocks ++ [commentBlock lines i])
      else
        match parseBlockAt lines i with
        | (block, endLine, true) =>
            parseLoop fuel' lines (endLine + 1) (blocks ++ [block])
        | (_, _, false) =>
            parseLoop fuel' lines (i + 1) (blocks ++ [otherBlock lines i])
        end
  end.

Definition parseBlocks (p : SchemaParser) : list SchemaBlock * option error :=
  let lines := Split (content p) LF in
  (parseLoop (List.length lines) lines 0 [], None).

(* ================================================================= *)
(** ** reconstructSchema *)

(** The loop of [reconstructSchema]; [blocks[i+1]] is the head of what is
    left after the current block. *)
Fixpoint reconstructLoop (blocks : list SchemaBlock) (result : list string)
    : list string :=
  match blocks with
  | [] => result
  | block :: rest =>
      let result := result ++ [Content block] in
      let result :=
        match rest with
        | nextBlock :: _ =>
            if negb (Type_ nextBlock =? "comment")
               && negb (TrimSpace (Content nextBlock) =? "")
            then result ++ [""] else result
        | [] => result
        end in
      reconstructLoop rest result
  end.

Definition reconstructSchema (blocks : list SchemaBlock) : string :=
  Join (reconstructLoop blocks []) nl.

(* ================================================================= *)
(** ** FilterByGenerator *)

(** One turn of [for _, block := range blocks] on the pair
    [(filteredBlocks, foundGenerator)]. *)
Definition filterStep (generatorName : string)
    (st : list SchemaBlock * bool) (block : SchemaBlock)
    : list SchemaBlock * bool :=
  let '(filteredBlocks, foundGenerator) := st in
  if Type_ block =? "generator" then
    if Name block =? generatorName
    then (filteredBlocks ++ [block], true)
    else (filteredBlocks, foundGenerator)
  else if (Type_ block =? "datasource") || (Type_ block =? "model")
          || (Type_ block =? "enum")
  then (filteredBlocks ++ [block], foundGenerator)
  else (filteredBlocks ++ [block], foundGenerator).

Definition filterLoop (blocks : list SchemaBlock) (generatorName : string)
    : list SchemaBlock * bool :=
  fold_left (filterStep generatorName) blocks ([], false).

Definition FilterByGenerator (p : SchemaParser) (generatorName : string)
    : string * option error :=
  match parseBlocks p with
  | (_, Some err) => ("", Some (ErrParseBlocks err))
  | (blocks, None) =>
      let '(filteredBlocks, foundGenerator) := filterLoop blocks generatorName in
      if negb foundGenerator
      then ("", Some (ErrGeneratorNotFound generatorName))
      else (reconstructSchema filteredBlocks, None)
  end.

(* ================================================================= *)
(** * Notions the properties are stated with *)

(* ================================================================= *)
(** ** Blocks and the selection loop *)

Definition isGenerator (b : SchemaBlock) : bool := Type_ b =? "generator".

(** What one turn of the loop keeps. *)
Definition retained (generatorName : string) (b : SchemaBlock) : bool :=
  negb (isGenerator b) || (Name b =? generatorName).

Definition matchesGenerator (generatorName : string) (b : SchemaBlock) : bool :=
  isGenerator b && (Name b =? generatorName).

(** Some generator block of [blocks] is named [g]. *)
Definition hasGenerator (blocks : list SchemaBlock) (g : string) : Prop :=
  exists b, In b blocks /\ Type_ b = "generator" /\ Name b = g.

Definition keptKinds : list string :=
  ["datasource"; "model"; "enum"; "comment"; "other"].

(** The blocks the specification keeps: every block of the five kinds
    above, and the generator blocks named [g]. *)
Definition selected (g : string) (b : SchemaBlock) : bool :=
  existsb (String.eqb (Type_ b)) keptKinds || matchesGenerator g b.

(** The filtered sequence holds one generator block, named [g]. *)
Definition exactlyOneGenerator (blocks : list SchemaBlock) (g : string) : Prop :=
  exists b, filter isGenerator blocks = [b] /\ Name b = g.

(* ================================================================= *)
(** ** The serializer, as the specification words it *)

(** The separator the specification puts in front of a block that is not the
    first: one blank line, unless the block is a comment or its trimmed text
    is empty. *)
Definition separatorBefore (next : SchemaBlock) : list string :=
  if (Type_ next =? "comment") || (TrimSpace (Content next) =? "")
  then [] else [""].

Definition reconstructSpec (blocks : list SchemaBlock) : list string :=
  match blocks with
  | [] => []
  | first :: rest =>
      Content first :: flat_map (fun b => separatorBefore b ++ [Content b]) rest
  end.

(* ================================================================= *)
(** ** Runs of the scanner *)

Definition linesOf (p : SchemaParser) : list string := Split (content p) LF.

(** The blocks the loop appends from cursor [i] on. *)
Definition parseFrom (lines : list string) (i : nat) : list SchemaBlock :=
  parseLoop (List.length lines - i) lines i [].

(** The runs of the loop, as a relation between a cursor and the blocks
    emitted from there: one rule per branch of the loop body. *)
Inductive scan (lines : list string) : nat -> list SchemaBlock -> Prop :=
| scan_end i :
    List.length lines <= i -> scan lines i []
| scan_blank i bs :
    i < List.length lines ->
    TrimSpace (nth i lines "") = "" ->
    scan lines (i + 1) bs -> scan lines i bs
| scan_comment i bs :
    i < List.length lines ->
    TrimSpace (nth i lines "") <> "" ->
    HasPrefix (TrimSpace (nth i lines "")) "//" = true ->
    scan lines (i + 1) bs -> scan lines i (commentBlock lines i :: bs)
| scan_block i b e bs :
    i < List.length lines ->
    TrimSpace (nth i lines "") <> "" ->
    HasPrefix (TrimSpace (nth i lines "")) "//" = false ->
    parseBlockAt lines i = (b, e, true) ->
    scan lines (e + 1) bs -> scan lines i (b :: bs)
| scan_other i bs :
    i < List.length lines ->
    TrimSpace (nth i lines "") <> "" ->
    HasPrefix (TrimSpace (nth i lines "")) "//" = false ->
    snd (parseBlockAt lines i) = false ->
    scan lines (i + 1) bs -> scan lines i (otherBlock lines i :: bs).

(** The six kinds of block. *)
Definition blockKinds : list string := blockTypes ++ ["comment"; "other"].

(* ================================================================= *)
(** ** Lines and line ranges *)

(** The lines [from .. to] of the input, both ends included. *)
Definition lineRange (lines : list string) (from to : nat) : list string :=
  firstn (to - from + 1) (skipn from lines).

(** The line indices [StartPos .. EndPos] of a block. *)
Definition blockRange (b : SchemaBlock) : list nat :=
  seq (StartPos b) (EndPos b - StartPos b + 1).

Definition coveredLines (blocks : list SchemaBlock) : list nat :=
  flat_map blockRange blocks.

(** A blank line: one the scanner skips when its cursor is on it. *)
Definition blank (line : string) : bool := TrimSpace line =? "".

Definition nonBlankAt (lines : list string) (j : nat) : bool :=
  negb (blank (nth j lines "")).

(** The text of a block is the lines [StartPos .. EndPos], joined. *)
Definition wellRanged (lines : list string) (b : SchemaBlock) : bool :=
  Content b =? Join (lineRange lines (StartPos b) (EndPos b)) nl.

Definition nonBlank (line : string) : bool := negb (blank line).

(** The lines of a text that are not blank, in order. *)
Definition nonBlankLines (text : string) : list string :=
  filter nonBlank (Split text LF).

(** [out] comes from [inp] by taking blank lines away, and nothing else:
    what every blank-line normalization does. *)
Inductive blankLinesRemoved : list string -> list string -> Prop :=
| removed_nil : blankLinesRemoved [] []
| removed_keep l inp out :
    blankLinesRemoved inp out -> blankLinesRemoved (l :: inp) (l :: out)
| removed_drop l inp out :
    blank l = true -> blankLinesRemoved inp out -> blankLinesRemoved (l :: inp) out.

(* ================================================================= *)
(** ** Declarations and their braces *)

(** The line starts with a recognized keyword and one space character. *)
Definition declares (line : string) : Prop :=
  exists kw rest, In kw blockTypes /\ line = (kw ++ " " ++ rest)%string.

Fixpoint countChar (c : ascii) (s : string) : nat :=
  match s with
  | EmptyString => 0
  | String d s' => (if Ascii.eqb d c then 1 else 0) + countChar c s'
  end.

Definition opens : string -> nat := countChar "{".
Definition closes : string -> nat := countChar "}".

(** The bytes of a run of lines, one line after the other. *)
Definition flatten (ls : list string) : string :=
  fold_right String.append "" ls.

(** A brace is opened in [s] and never matched: at every point of [s] from
    the first opening brace on, fewer closing than opening braces have been
    read. *)
Definition unmatchedOpen (s : string) : Prop :=
  0 < opens s
  /\ forall p q, s = (p ++ q)%string -> 0 < opens p -> closes p < opens p.

(** A check for [unmatchedOpen] that computes: [o] opening and [c] closing
    braces have been read so far. *)
Fixpoint staysOpen (s : string) (o c : nat) : bool :=
  match s with
  | EmptyString => true
  | String d s' =>
      let o' := o + (if Ascii.eqb d "{" then 1 else 0) in
      let c' := c + (if Ascii.eqb d "}" then 1 else 0) in
      ((o' =? 0) || (c' <? o'))%nat && staysOpen s' o' c'
  end.

Definition unmatchedOpenb (s : string) : bool :=
  (0 <? opens s)%nat && staysOpen s 0 0.

(* ================================================================= *)
(** ** Concrete schemas *)

(** A schema text from its lines. *)
Definition schema (ls : list string) : string := Join ls nl.

Definition TAB : string := String "009"%char "".

(** A declaration whose brace never closes, after a generator. *)
Definition unclosedSchema : SchemaParser :=
  NewSchemaParser (schema ["generator a {}"; "model Foo {"]).

(** Two generator blocks of one name. *)
Definition twinGenerators : SchemaParser :=
  NewSchemaParser (schema ["generator a {}"; "generator a {}"; "model M {}"]).

(** A blank line between the braces of a block. *)
Definition spacedModel : SchemaParser :=
  NewSchemaParser (schema ["model A {"; ""; "}"]).

(** A closing brace ahead of the opening one. *)
Definition strayBrace : list string := ["model A } {"; "x"].


(** Two blocks on adjacent lines. *)
Definition adjacentBlocks : SchemaParser :=
  NewSchemaParser (schema ["generator a {}"; "model B {}"]).

(** A comment, a generator over three lines, a model, and blank lines
    around them. *)
Definition commentedSchema : SchemaParser :=
  NewSchemaParser
    (schema ["// client"; ""; "generator a {"; "  provider = x"; "}"; "";
             ""; "model B {}"; ""]).

(* ================================================================= *)
(** ** Runes, brace depth and layout *)

(** The head of [c :: s1] is not a white-space rune. *)
Definition plainHead (c : ascii) (s1 : string) : Prop :=
  space1 c = false
  /\ match s1 with
     | EmptyString => True
     | String d s2 =>
         space2 c d = false
         /\ match s2 with
            | EmptyString => True
            | String e _ => space3 c d e = false
            end
     end.

(** A rune of the cut is not empty, and a white-space rune has no opening
    brace. *)
Definition runeOK (r : bool * string) : Prop :=
  snd r <> "" /\ (fst r = true -> opens (snd r) = 0).

(** Opening minus closing braces. *)
Definition depth (s : string) : Z := (Z.of_nat (opens s) - Z.of_nat (closes s))%Z.

(** With the counter at [bc] before [P], no closing brace of [P] brings it
    to zero. *)
Definition noCloseIn (bc : Z) (P : string) : Prop :=
  forall p1 p2, P = (p1 ++ "}" ++ p2)%string -> (bc + depth p1 - 1 <> 0)%Z.

(** Reading from line [s], the closing brace after the bytes [p] of line
    [e] is the first that brings the counter to zero. *)
Definition closesOn (lines : list string) (s e : nat) (p : string) : Prop :=
  (exists q, nth e lines "" = (p ++ "}" ++ q)%string)
  /\ depth (flatten (firstn (e - s) (skipn s lines)) ++ p) = 1%Z
  /\ noCloseIn 0 (flatten (firstn (e - s) (skipn s lines)) ++ p).

(** The separator in front of a block, by its kind alone. *)
Definition separatorOfKind (b : SchemaBlock) : list string :=
  if Type_ b =? "comment" then [] else [""].

Definition layout (blocks : list SchemaBlock) : list string :=
  match blocks with
  | [] => []
  | first :: rest =>
      Content first :: flat_map (fun b => separatorOfKind b ++ [Content b]) rest
  end.

(** A byte below 128 that is not white space is no part of a white-space
    rune. *)
Definition plainByte (c : ascii) : bool := (code c <? 128)%nat && negb (space1 c).

Definition plainWord (w : string) : bool :=
  forallb plainByte (list_ascii_of_string w).

Definition chunksOf (w : string) : list (bool * string) :=
  map (fun c => (false, String c "")) (list_ascii_of_string w).

(** A model over three lines after a comment, with a nested pair of braces
    and text after its closing brace. *)
Definition nestedModel : list string :=
  ["// c"; "model A {"; "  x { }"; "} rest {"; "enum B {}"].

(* ================================================================= *)
(** ** Braces that balance without closing *)

(** From line [s] on there is an opening brace, no closing brace brings the
    counter to zero, and yet the counter is zero at the end of the input:
    some closing brace comes ahead of the opening one it is counted
    against. *)
Definition strayClose (lines : list string) (s : nat) : Prop :=
  0 < opens (flatten (skipn s lines))
  /\ noCloseIn 0 (flatten (skipn s lines))
  /\ depth (flatten (skipn s lines)) = 0%Z.

(** No declaration line of the input is followed by such braces. *)
Definition noStrayClose (lines : list string) : Prop :=
  forall s, s < List.length lines ->
    declares (TrimSpace (nth s lines "")) -> ~ strayClose lines s.

(** The same two notions, as checks that compute. *)
Definition declaresb (line : string) : bool :=
  negb (fst (matchBlockType line blockTypes) =? "").

Definition strayCloseb (lines : list string) (s : nat) : bool :=
  (0 <? opens (flatten (skipn s lines)))%nat
  && negb (snd (countBraces (flatten (skipn s lines)) 0))
  && (fst (countBraces (flatten (skipn s lines)) 0) =? 0)%Z.

Definition noStrayCloseb (lines : list string) : bool :=
  forallb (fun s => negb (declaresb (TrimSpace (nth s lines ""))
                          && strayCloseb lines s))
    (seq 0 (List.length lines)).

(** A declaration with no brace at all. *)
Definition braceless : SchemaParser :=
  NewSchemaParser (schema ["model Foo"; "x"]).

(** An enum whose closing brace comes ahead of its opening brace. *)
Definition strayEnum : SchemaParser :=
  NewSchemaParser (schema ["enum E }{"; "y"]).

(* ================================================================= *)
(** * Lemmas *)

(* ================================================================= *)
(** ** The string functions on examples *)

Example TrimSpace_declaration :
  TrimSpace ("  model A {" ++ TAB ++ " ")%string = "model A {".
Proof. reflexivity. Qed.

Example TrimSpace_no_break_space :
  TrimSpace (String "194" (String "160" "x y ")) = "x y".
Proof. reflexivity. Qed.

Example Fields_declaration :
  Fields (" generator" ++ TAB ++ " client {")%string = ["generator"; "client"; "{"].
Proof. reflexivity. Qed.

Example Split_lines :
  Split (schema ["a"; ""; "b"; ""]) LF = ["a"; ""; "b"; ""]
  /\ Split "" LF = [""].
Proof. split; reflexivity. Qed.

Example Index_brace :
  Index "ab{c{" "{" = 2%Z /\ Index "abc" "{" = (-1)%Z
  /\ Contains "}{" "{" = true /\ Contains "" "{" = false.
Proof. repeat split. Qed.

(** The example of the specification: two generators and a model, filtered
    for the second generator. *)
Example FilterByGenerator_second_of_two :
  FilterByGenerator
    (NewSchemaParser
       (schema ["generator a { provider = x }"; "generator b { provider = y }";
                "model User { id Int }"])) "b"
  = (schema ["generator b { provider = y }"; ""; "model User { id Int }"], None).
Proof. reflexivity. Qed.

(** A declaration whose brace is on a later line, with a nested pair. *)
Example parseBlockAt_brace_on_next_line :
  parseBlockAt ["enum Role"; "{"; "  A { }"; "}"; "model B {}"] 0
  = (mkBlock "enum" "Role" (schema ["enum Role"; "{"; "  A { }"; "}"]) 0 3,
     3, true).
Proof. reflexivity. Qed.

(* ================================================================= *)
(** ** The selection loop *)

Lemma filterStep_spec (g : string) (acc : list SchemaBlock) (found : bool)
    (b : SchemaBlock) :
  filterStep g (acc, found) b
  = (acc ++ (if retained g b then [b] else []), found || matchesGenerator g b).
Proof.
  unfold filterStep, retained, matchesGenerator, isGenerator.
  destruct (Type_ b =? "generator"); simpl.
  - destruct (Name b =? g); simpl.
    + now rewrite orb_true_r.
    + now rewrite app_nil_r, orb_false_r.
  - rewrite orb_false_r.
    now destruct ((Type_ b =? "datasource") || (Type_ b =? "model")
                  || (Type_ b =? "enum")).
Qed.

Lemma filterStep_fold (g : string) (blocks acc : list SchemaBlock) (found : bool) :
  fold_left (filterStep g) blocks (acc, found)
  = (acc ++ filter (retained g) blocks,
     found || existsb (matchesGenerator g) blocks).
Proof.
  revert acc found.
  induction blocks as [|b blocks IH]; intros acc found; cbn [fold_left filter existsb].
  - now rewrite app_nil_r, orb_false_r.
  - rewrite filterStep_spec, IH, <- app_assoc, orb_assoc.
    now destruct (retained g b).
Qed.

Lemma filterLoop_spec (blocks : list SchemaBlock) (g : string) :
  filterLoop blocks g
  = (filter (retained g) blocks, existsb (matchesGenerator g) blocks).
Proof. unfold filterLoop. now rewrite filterStep_fold. Qed.

Lemma FilterByGenerator_unfold (p : SchemaParser) (g : string) :
  FilterByGenerator p g
  = if existsb (matchesGenerator g) (fst (parseBlocks p))
    then (reconstructSchema (filter (retained g) (fst (parseBlocks p))), None)
    else ("", Some (ErrGeneratorNotFound g)).
Proof.
  unfold FilterByGenerator, parseBlocks; simpl.
  rewrite filterLoop_spec.
  now destruct (existsb (matchesGenerator g) _).
Qed.

Lemma matchesGenerator_iff (g : string) (b : SchemaBlock) :
  matchesGenerator g b = true <-> Type_ b = "generator" /\ Name b = g.
Proof.
  unfold matchesGenerator, isGenerator.
  now rewrite andb_true_iff, !String.eqb_eq.
Qed.

Lemma hasGenerator_existsb (blocks : list SchemaBlock) (g : string) :
  existsb (matchesGenerator g) blocks = true <-> hasGenerator blocks g.
Proof.
  rewrite existsb_exists. unfold hasGenerator.
  split; intros (b & Hin & H); exists b; split; auto;
    now apply matchesGenerator_iff.
Qed.

Lemma FilterByGenerator_ok (p : SchemaParser) (g : string) :
  snd (FilterByGenerator p g) = None <-> hasGenerator (fst (parseBlocks p)) g.
Proof.
  rewrite FilterByGenerator_unfold, <- hasGenerator_existsb.
  destruct (existsb (matchesGenerator g) (fst (parseBlocks p))); simpl;
    split; auto; discriminate.
Qed.

Lemma retained_selected (g : string) (b : SchemaBlock) :
  In (Type_ b) blockKinds -> retained g b = selected g b.
Proof.
  unfold retained, selected, matchesGenerator, isGenerator.
  simpl. intros [H|[H|[H|[H|[H|[H|[]]]]]]]; rewrite <- H; reflexivity.
Qed.

(* ================================================================= *)
(** ** The serializer *)

Lemma reconstructLoop_spec (blocks : list SchemaBlock) (result : list string) :
  reconstructLoop blocks result = result ++ reconstructSpec blocks.
Proof.
  revert result.
  induction blocks as [|b rest IH]; intros result; simpl.
  - now rewrite app_nil_r.
  - rewrite IH. destruct rest as [|nb rest']; simpl.
    + now rewrite app_nil_r.
    + unfold separatorBefore.
      destruct (Type_ nb =? "comment"); simpl;
        [|destruct (TrimSpace (Content nb) =? ""); simpl];
        now rewrite <- !app_assoc.
Qed.

(* ================================================================= *)
(** ** The brace scan *)

Lemma countBraces_closed (chars : string) (bc bc' : Z) :
  countBraces chars bc = (bc', true) -> bc' = 0%Z.
Proof.
  revert bc.
  induction chars as [|c rest IH]; intros bc; simpl; [discriminate|].
  destruct (Ascii.eqb c "{"); [apply IH|].
  destruct (Ascii.eqb c "}"); [|apply IH].
  destruct (bc - 1 =? 0)%Z eqn:E; [|apply IH].
  intros [= <- ]. now apply Z.eqb_eq.
Qed.

(** Either the scan ran to the end of the input and [endLine] kept its
    initial value, or the [goto] was taken on line [endLine] with the counter
    at zero; [contentLines] holds every line read. *)
Lemma scanLines_spec (rest : list string) :
  forall (i : nat) (bc : Z) (cl : list string) (e0 : nat) bc' cl' e',
    scanLines rest i bc cl e0 = (bc', cl', e') ->
    (e' = e0 /\ cl' = cl ++ rest)
    \/ (i <= e' < i + List.length rest
        /\ cl' = cl ++ firstn (e' - i + 1) rest /\ bc' = 0%Z).
Proof.
  induction rest as [|l rest IH]; intros i bc cl e0 bc' cl' e'; simpl.
  - intros [= <- <- <-]. left. now rewrite app_nil_r.
  - destruct (countBraces l bc) as [bc1 [|]] eqn:E.
    + intros [= <- <- <-]. right.
      apply countBraces_closed in E.
      replace (i - i + 1) with 1 by lia. simpl. repeat split; auto; lia.
    + intros H. apply IH in H.
      destruct H as [[-> ->]|[Hb [-> ->]]].
      * left. now rewrite <- app_assoc.
      * right. repeat split; try lia.
        rewrite <- app_assoc. simpl.
        now replace (e' - i + 1) with (S (e' - (i + 1) + 1)) by lia.
Qed.

Lemma matchBlockType_kind (line : string) (bts : list string) :
  fst (matchBlockType line bts) = "" \/ In (fst (matchBlockType line bts)) bts.
Proof.
  induction bts as [|bt bts IH]; simpl; [now left|].
  destruct (HasPrefix line (bt ++ " ")); simpl; [now right; left|].
  destruct IH; [now left|now right; right].
Qed.

(** What a successful [parseBlockAt] returns. *)
Lemma parseBlockAt_found (lines : list string) (s : nat) (b : SchemaBlock) (e : nat) :
  s < List.length lines ->
  parseBlockAt lines s = (b, e, true) ->
  s <= e < List.length lines
  /\ StartPos b = s /\ EndPos b = e
  /\ In (Type_ b) blockTypes
  /\ (Content b = Join (lineRange lines s e) nl
      \/ (e = s /\ Content b = Join (skipn s lines) nl)).
Proof.
  intros Hs. unfold parseBlockAt.
  destruct (matchBlockType_kind (TrimSpace (nth s lines "")) blockTypes) as [K|K];
    destruct (matchBlockType (TrimSpace (nth s lines "")) blockTypes)
      as [bt bn]; simpl in K.
  { subst bt. simpl. discriminate. }
  destruct (bt =? "") eqn:Ebt; [discriminate|].
  match goal with |- context [if (?x =? -1)%Z then _ else _] =>
    destruct (x =? -1)%Z; [discriminate|] end.
  destruct (scanLines (skipn s lines) s 0 [] s) as [[bc cl] e1] eqn:Escan.
  destruct (negb (bc =? 0)%Z); [discriminate|].
  intros [= <- <-]. simpl.
  apply scanLines_spec in Escan.
  assert (Hlen : List.length (skipn s lines) = List.length lines - s)
    by apply length_skipn.
  destruct Escan as [[-> ->]|[Hb [-> _]]]; simpl.
  - repeat split; auto; try lia.
  - unfold lineRange. repeat split; auto; try lia.
Qed.

(** A failed [parseBlockAt] returns the zero block and line 0. *)
Lemma parseBlockAt_not_found (lines : list string) (s : nat) (b : SchemaBlock) (e : nat) :
  parseBlockAt lines s = (b, e, false) -> b = zeroBlock /\ e = 0.
Proof.
  unfold parseBlockAt.
  destruct (matchBlockType (TrimSpace (nth s lines "")) blockTypes) as [bt bn].
  destruct (bt =? ""); [now intros [= <- <-]|].
  match goal with |- context [if (?x =? -1)%Z then _ else _] =>
    destruct (x =? -1)%Z; [now intros [= <- <-]|] end.
  destruct (scanLines (skipn s lines) s 0 [] s) as [[bc cl] e1].
  destruct (negb (bc =? 0)%Z); [now intros [= <- <-]|discriminate].
Qed.

(* ================================================================= *)
(** ** The scanner loop *)

Lemma parseLoop_acc (lines : list string) (fuel : nat) :
  forall (i : nat) (acc : list SchemaBlock),
    parseLoop fuel lines i acc = acc ++ parseLoop fuel lines i [].
Proof.
  induction fuel as [|fuel IH]; intros i acc; simpl.
  - now rewrite app_nil_r.
  - destruct (negb (i <? List.length lines)%nat); [now rewrite app_nil_r|].
    destruct (TrimSpace (nth i lines "") =? ""); [apply IH|].
    destruct (HasPrefix (TrimSpace (nth i lines "")) "//").
    + rewrite IH, (IH _ [_]). now rewrite app_assoc.
    + destruct (parseBlockAt lines i) as [[b e] [|]];
        rewrite IH, (IH _ [_]); now rewrite app_assoc.
Qed.

(** Any amount of fuel from [len(lines) - i] on gives the same blocks: the
    loop never stops for lack of fuel. *)
Lemma parseLoop_fuel (lines : list string) (fuel1 : nat) :
  forall (fuel2 i : nat) (acc : list SchemaBlock),
    List.length lines - i <= fuel1 ->
    List.length lines - i <= fuel2 ->
    parseLoop fuel1 lines i acc = parseLoop fuel2 lines i acc.
Proof.
  induction fuel1 as [|fuel1 IH]; intros fuel2 i acc H1 H2.
  - destruct fuel2 as [|fuel2]; simpl; [reflexivity|].
    destruct (Nat.ltb_spec i (List.length lines)); [lia|reflexivity].
  - destruct fuel2 as [|fuel2]; simpl.
    + destruct (Nat.ltb_spec i (List.length lines)); [lia|reflexivity].
    + destruct (Nat.ltb_spec i (List.length lines)) as [Hi|Hi]; simpl;
        [|reflexivity].
      destruct (TrimSpace (nth i lines "") =? ""); [apply IH; lia|].
      destruct (HasPrefix (TrimSpace (nth i lines "")) "//"); [apply IH; lia|].
      destruct (parseBlockAt lines i) as [[b e] [|]] eqn:E; [|apply IH; lia].
      apply parseBlockAt_found in E; [|exact Hi].
      apply IH; lia.
Qed.

Lemma parseBlocks_parseFrom (p : SchemaParser) :
  fst (parseBlocks p) = parseFrom (Split (content p) LF) 0.
Proof. unfold parseBlocks, parseFrom. simpl. now rewrite Nat.sub_0_r. Qed.

Lemma parseFrom_end (lines : list string) (i : nat) :
  List.length lines <= i -> parseFrom lines i = [].
Proof.
  intros H. unfold parseFrom.
  now replace (List.length lines - i) with 0 by lia.
Qed.

Lemma parseFrom_unfold (lines : list string) (i : nat) :
  i < List.length lines ->
  parseFrom lines i
  = let line := TrimSpace (nth i lines "") in
    if line =? "" then parseFrom lines (i + 1)
    else if HasPrefix line "//"
    then commentBlock lines i :: parseFrom lines (i + 1)
    else match parseBlockAt lines i with
         | (block, endLine, true) => block :: parseFrom lines (endLine + 1)
         | (_, _, false) => otherBlock lines i :: parseFrom lines (i + 1)
         end.
Proof.
  intros Hi. unfold parseFrom at 1.
  destruct (List.length lines - i) as [|fuel] eqn:Ef; [lia|].
  cbn [parseLoop].
  destruct (Nat.ltb_spec i (List.length lines)) as [_|]; [|lia].
  cbv zeta. cbn [negb].
  destruct (TrimSpace (nth i lines "") =? "").
  { apply parseLoop_fuel; lia. }
  destruct (HasPrefix (TrimSpace (nth i lines "")) "//").
  { rewrite parseLoop_acc. cbn [app]. f_equal. apply parseLoop_fuel; lia. }
  destruct (parseBlockAt lines i) as [[b e] [|]] eqn:E.
  - apply parseBlockAt_found in E; [|exact Hi].
    rewrite parseLoop_acc. cbn [app]. f_equal. apply parseLoop_fuel; lia.
  - rewrite parseLoop_acc. cbn [app]. f_equal. apply parseLoop_fuel; lia.
Qed.

Lemma parseFrom_scan (lines : list string) (i : nat) :
  scan lines i (parseFrom lines i).
Proof.
  remember (List.length lines - i) as n eqn:En.
  revert i En.
  induction n as [n IH] using lt_wf_ind; intros i En.
  destruct (Nat.le_gt_cases (List.length lines) i) as [Hi|Hi].
  - rewrite parseFrom_end by exact Hi. now constructor.
  - rewrite parseFrom_unfold by exact Hi. cbv zeta.
    destruct (String.eqb_spec (TrimSpace (nth i lines "")) "") as [Eb|Eb].
    { apply scan_blank; auto. apply (IH (List.length lines - (i + 1))); lia. }
    destruct (HasPrefix (TrimSpace (nth i lines "")) "//") eqn:Ec.
    { apply scan_comment; auto. apply (IH (List.length lines - (i + 1))); lia. }
    destruct (parseBlockAt lines i) as [[b e] [|]] eqn:E.
    + apply scan_block with (e := e); auto.
      apply parseBlockAt_found in E; [|exact Hi].
      apply (IH (List.length lines - (e + 1))); lia.
    + apply scan_other; auto; [now rewrite E|].
      apply (IH (List.length lines - (i + 1))); lia.
Qed.

(* ================================================================= *)
(** ** Line ranges of the emitted blocks *)

Lemma sorted_seq_app (a n : nat) (l : list nat) :
  Forall (fun j => a + n <= j) l ->
  StronglySorted lt l ->
  StronglySorted lt (seq a n ++ l).
Proof.
  revert a. induction n as [|n IH]; intros a Hl Hs; simpl; [exact Hs|].
  constructor.
  - apply IH; [|exact Hs].
    eapply Forall_impl; [|exact Hl]. simpl. intros; lia.
  - apply Forall_app. split.
    + apply Forall_forall. intros j Hj. apply in_seq in Hj. lia.
    + eapply Forall_impl; [|exact Hl]. simpl. intros; lia.
Qed.

Lemma scan_covered (lines : list string) (i : nat) (bs : list SchemaBlock) :
  scan lines i bs ->
  Forall (fun j => i <= j < List.length lines) (coveredLines bs)
  /\ StronglySorted lt (coveredLines bs)
  /\ filter (nonBlankAt lines) (coveredLines bs)
     = filter (nonBlankAt lines) (seq i (List.length lines - i)).
Proof.
  assert (Hstep : forall i s e (rest : list nat),
    i <= s -> s <= e < List.length lines ->
    Forall (fun j => e + 1 <= j < List.length lines) rest ->
    StronglySorted lt rest ->
    Forall (fun j => i <= j < List.length lines) (seq s (e - s + 1) ++ rest)
    /\ StronglySorted lt (seq s (e - s + 1) ++ rest)).
  { intros k s e rest Hk He Hr Hs. split.
    - apply Forall_app. split.
      + apply Forall_forall. intros j Hj. apply in_seq in Hj. lia.
      + eapply Forall_impl; [|exact Hr]. simpl. intros; lia.
    - apply sorted_seq_app; [|exact Hs].
      eapply Forall_impl; [|exact Hr]. simpl. intros; lia. }
  assert (Hsplit : forall s e, s <= e < List.length lines ->
    seq s (List.length lines - s)
    = seq s (e - s + 1) ++ seq (e + 1) (List.length lines - (e + 1))).
  { intros s e He.
    replace (e + 1) with (s + (e - s + 1)) by lia.
    rewrite <- seq_app. f_equal; lia. }
  induction 1 as [i Hi | i bs Hi Hb _ IH | i bs Hi Hb Hc _ IH
                  | i b e bs Hi Hb Hc Hp _ IH | i bs Hi Hb Hc Hp _ IH].
  - simpl. replace (List.length lines - i) with 0 by lia.
    repeat split; constructor.
  - destruct IH as (Hin & Hs & Hf). repeat split; auto.
    + eapply Forall_impl; [|exact Hin]. simpl. intros; lia.
    + rewrite Hf, (Hsplit i i) by lia.
      replace (i - i + 1) with 1 by lia. cbn [seq app filter].
      unfold nonBlankAt at 2, blank. rewrite Hb. reflexivity.
  - destruct IH as (Hin & Hs & Hf).
    change (coveredLines (commentBlock lines i :: bs))
      with (seq i (i - i + 1) ++ coveredLines bs).
    destruct (Hstep i i i (coveredLines bs)) as [H1 H2]; auto; try lia.
    repeat split; auto.
    now rewrite filter_app, Hf, <- filter_app, <- Hsplit by lia.
  - destruct IH as (Hin & Hs & Hf).
    apply parseBlockAt_found in Hp; [|exact Hi].
    destruct Hp as (He & Hsp & Hep & _).
    assert (Hr : coveredLines (b :: bs) = seq i (e - i + 1) ++ coveredLines bs).
    { unfold coveredLines. cbn [flat_map]. unfold blockRange.
      now rewrite Hsp, Hep. }
    rewrite Hr.
    destruct (Hstep i i e (coveredLines bs)) as [H1 H2]; auto; try lia.
    repeat split; auto.
    now rewrite filter_app, Hf, <- filter_app, <- Hsplit by lia.
  - destruct IH as (Hin & Hs & Hf).
    change (coveredLines (otherBlock lines i :: bs))
      with (seq i (i - i + 1) ++ coveredLines bs).
    destruct (Hstep i i i (coveredLines bs)) as [H1 H2]; auto; try lia.
    repeat split; auto.
    now rewrite filter_app, Hf, <- filter_app, <- Hsplit by lia.
Qed.

Lemma scan_kinds (lines : list string) (i : nat) (bs : list SchemaBlock) :
  scan lines i bs -> Forall (fun b => In (Type_ b) blockKinds) bs.
Proof.
  induction 1 as [i Hi | i bs Hi Hb _ IH | i bs Hi Hb Hc _ IH
                  | i b e bs Hi Hb Hc Hp _ IH | i bs Hi Hb Hc Hp _ IH];
    try constructor; auto.
  - simpl. tauto.
  - apply parseBlockAt_found in Hp; [|exact Hi].
    destruct Hp as (_ & _ & _ & Hk & _).
    unfold blockKinds. apply in_or_app. now left.
  - simpl. tauto.
Qed.

Lemma scan_bounds (lines : list string) (i : nat) (bs : list SchemaBlock) :
  scan lines i bs ->
  Forall (fun b => StartPos b <= EndPos b < List.length lines) bs.
Proof.
  induction 1 as [i Hi | i bs Hi Hb _ IH | i bs Hi Hb Hc _ IH
                  | i b e bs Hi Hb Hc Hp _ IH | i bs Hi Hb Hc Hp _ IH];
    try constructor; auto; simpl; try lia.
  apply parseBlockAt_found in Hp; [|exact Hi].
  destruct Hp as (He & -> & -> & _). lia.
Qed.

(* ================================================================= *)
(** ** Keyword recognition *)

Lemma append_assoc (a b c : string) :
  ((a ++ b) ++ c)%string = (a ++ (b ++ c))%string.
Proof. induction a as [|x a IH]; simpl; [reflexivity|now rewrite IH]. Qed.

Lemma append_nil_r (a : string) : (a ++ "")%string = a.
Proof. induction a as [|x a IH]; simpl; [reflexivity|now rewrite IH]. Qed.

Lemma prefix_app_iff (pre s : string) :
  String.prefix pre s = true <-> exists rest, s = (pre ++ rest)%string.
Proof.
  revert s. induction pre as [|c pre IH]; intros s; simpl.
  - split; [intros _; now exists s|]. now destruct s.
  - destruct s as [|d s]; simpl.
    + split; [discriminate|]. now intros [rest H].
    + destruct (ascii_dec c d) as [->|Hcd].
      * rewrite IH. split; intros [rest H]; exists rest; congruence.
      * split; [discriminate|]. intros [rest H]. congruence.
Qed.

Lemma matchBlockType_iff (line : string) :
  fst (matchBlockType line blockTypes) <> "" <-> declares line.
Proof.
  assert (G : forall bts, ~ In "" bts ->
    (fst (matchBlockType line bts) <> ""
     <-> exists kw rest, In kw bts /\ line = (kw ++ " " ++ rest)%string)).
  { induction bts as [|bt bts IH]; intros Hn; simpl.
    - split; [congruence|]. now intros (kw & rest & [] & _).
    - destruct (HasPrefix line (bt ++ " ")) eqn:E; unfold HasPrefix in E; simpl.
      + split; [|intros _ Hbt; apply Hn; now left].
        intros _. apply prefix_app_iff in E. destruct E as [rest E].
        exists bt, rest. split; [now left|].
        now rewrite E, append_assoc.
      + rewrite IH by (intros H; apply Hn; now right).
        split; intros (kw & rest & Hin & Hl); exists kw, rest; split; auto.
        destruct Hin as [<-|Hin]; [|exact Hin].
        exfalso. assert (String.prefix (bt ++ " ") line = true); [|congruence].
        apply prefix_app_iff. exists rest.
        now rewrite Hl, append_assoc. }
  apply G. simpl. intuition discriminate.
Qed.

(** A declaration line is neither blank nor a comment. *)
Lemma declares_not_skipped (line : string) :
  declares line -> line <> "" /\ HasPrefix line "//" = false.
Proof.
  intros (kw & rest & Hin & ->). simpl in Hin.
  destruct Hin as [<-|[<-|[<-|[<-|[]]]]]; split; (discriminate || reflexivity).
Qed.


(* ================================================================= *)
(** ** Braces that never close *)

Lemma countBraces_app (a b : string) (bc : Z) :
  countBraces (a ++ b) bc
  = match countBraces a bc with
    | (bc', true) => (bc', true)
    | (bc', false) => countBraces b bc'
    end.
Proof.
  revert bc. induction a as [|c a IH]; intros bc; simpl; [reflexivity|].
  destruct (Ascii.eqb c "{"); [apply IH|].
  destruct (Ascii.eqb c "}"); [|apply IH].
  destruct (bc - 1 =? 0)%Z; [reflexivity|apply IH].
Qed.

Lemma countBraces_unmatched (s : string) :
  forall o c : nat,
    (forall p q, s = (p ++ q)%string ->
       0 < o + opens p -> c + closes p < o + opens p) ->
    countBraces s (Z.of_nat o - Z.of_nat c)
    = ((Z.of_nat (o + opens s) - Z.of_nat (c + closes s))%Z, false).
Proof.
  induction s as [|d s IH]; intros o c H; simpl.
  - unfold opens, closes. simpl. now rewrite !Nat.add_0_r.
  - unfold opens, closes in *. simpl.
    destruct (Ascii.eqb_spec d "{") as [->|Hd].
    + simpl.
      replace (Z.of_nat o - Z.of_nat c + 1)%Z
        with (Z.of_nat (o + 1) - Z.of_nat c)%Z by lia.
      rewrite IH.
      * f_equal. lia.
      * intros p q Hs Hp.
        specialize (H (String "{" p) q). simpl in H.
        rewrite Hs in H. specialize (H eq_refl). lia.
    + destruct (Ascii.eqb_spec d "}") as [->|Hd'].
      * simpl.
        assert (Hc : (Z.of_nat o - Z.of_nat c - 1 <> 0)%Z).
        { specialize (H (String "}" "") s eq_refl). simpl in H. lia. }
        apply Z.eqb_neq in Hc. rewrite Hc.
        replace (Z.of_nat o - Z.of_nat c - 1)%Z
          with (Z.of_nat o - Z.of_nat (c + 1))%Z by lia.
        rewrite IH.
        -- f_equal. lia.
        -- intros p q Hs Hp.
           specialize (H (String "}" p) q). simpl in H.
           rewrite Hs in H. specialize (H eq_refl). lia.
      * simpl. rewrite IH; [reflexivity|].
        intros p q Hs Hp.
        specialize (H (String d p) q). simpl in H.
        destruct (Ascii.eqb_spec d "{"); [contradiction|].
        destruct (Ascii.eqb_spec d "}"); [contradiction|].
        rewrite Hs in H. specialize (H eq_refl). simpl in H. lia.
Qed.

(** A line scan that never takes the [goto] reads every line. *)
Lemma scanLines_exhausted (rest : list string) :
  forall (i : nat) (bc : Z) (cl : list string) (e0 : nat),
    snd (countBraces (flatten rest) bc) = false ->
    scanLines rest i bc cl e0
    = (fst (countBraces (flatten rest) bc), cl ++ rest, e0).
Proof.
  induction rest as [|l rest IH]; intros i bc cl e0; simpl.
  - now rewrite app_nil_r.
  - rewrite countBraces_app.
    destruct (countBraces l bc) as [bc1 [|]]; simpl; [discriminate|].
    intros H. rewrite IH by exact H. now rewrite <- app_assoc.
Qed.

Lemma parseBlockAt_unmatched (lines : list string) (i : nat) :
  unmatchedOpen (flatten (skipn i lines)) ->
  parseBlockAt lines i = (zeroBlock, 0, false).
Proof.
  intros [Hopen Hun]. unfold parseBlockAt.
  destruct (matchBlockType (TrimSpace (nth i lines "")) blockTypes) as [bt bn].
  destruct (bt =? ""); [reflexivity|].
  match goal with |- context [if (?x =? -1)%Z then _ else _] =>
    destruct (x =? -1)%Z; [reflexivity|] end.
  pose proof (countBraces_unmatched (flatten (skipn i lines)) 0 0) as Hc.
  simpl in Hc. specialize (Hc Hun).
  rewrite scanLines_exhausted by now rewrite Hc.
  rewrite Hc. cbn [fst negb].
  assert (Hlt : closes (flatten (skipn i lines)) < opens (flatten (skipn i lines))).
  { apply (Hun _ ""); [|exact Hopen]. now rewrite append_nil_r. }
  destruct (Z.eqb_spec (Z.of_nat (opens (flatten (skipn i lines)))
                        - Z.of_nat (closes (flatten (skipn i lines)))) 0);
    [lia|reflexivity].
Qed.

Lemma staysOpen_sound (s : string) :
  forall o c : nat,
    o = 0 \/ c < o ->
    staysOpen s o c = true ->
    forall p q, s = (p ++ q)%string ->
      0 < o + opens p -> c + closes p < o + opens p.
Proof.
  induction s as [|d s IH]; intros o c H0 Hs p q Heq Hp.
  - destruct p; [|discriminate]. unfold opens, closes in *. simpl in *. lia.
  - destruct p as [|x p].
    + unfold opens, closes in *. simpl in *. lia.
    + simpl in Heq. injection Heq as <- Heq.
      simpl in Hs. apply andb_true_iff in Hs. destruct Hs as [Hs1 Hs2].
      apply orb_true_iff in Hs1.
      rewrite Nat.eqb_eq, Nat.ltb_lt in Hs1.
      specialize (IH _ _ Hs1 Hs2 p q Heq).
      unfold opens, closes in *. simpl in *. lia.
Qed.

Lemma unmatchedOpenb_sound (s : string) :
  unmatchedOpenb s = true -> unmatchedOpen s.
Proof.
  unfold unmatchedOpenb. intros H. apply andb_true_iff in H.
  destruct H as [H1 H2]. apply Nat.ltb_lt in H1. split; [exact H1|].
  intros p q Heq Hp.
  apply (staysOpen_sound s 0 0 (or_introl eq_refl) H2 p q Heq Hp).
Qed.

(* ================================================================= *)
(** ** Splitting and joining lines *)

Lemma Split_nonempty (s : string) (sep : ascii) : Split s sep <> [].
Proof.
  destruct s as [|c s]; simpl; [discriminate|].
  destruct (Ascii.eqb c sep); [discriminate|].
  destruct (Split s sep); discriminate.
Qed.

(** A piece of a split holds no separator: splitting it again changes
    nothing. *)
Lemma Split_pieces (s : string) :
  Forall (fun l => Split l LF = [l]) (Split s LF).
Proof.
  induction s as [|c s IH]; simpl.
  - repeat constructor.
  - destruct (Ascii.eqb c LF) eqn:E.
    + constructor; [reflexivity|exact IH].
    + destruct (Split s LF) as [|piece pieces].
      { constructor; [|constructor]. simpl. now rewrite E. }
      inversion IH as [|? ? Hp Hps]; subst.
      constructor; [|exact Hps].
      simpl. now rewrite E, Hp.
Qed.

Lemma Split_app_nl (a b : string) :
  Split (a ++ String LF b) LF = Split a LF ++ Split b LF.
Proof.
  induction a as [|c a IH]; simpl; [reflexivity|].
  destruct (Ascii.eqb c LF); [now rewrite IH|].
  rewrite IH.
  pose proof (Split_nonempty a LF) as Hn.
  now destruct (Split a LF).
Qed.

Lemma Split_Join (xs : list string) :
  xs <> [] -> Split (Join xs nl) LF = flat_map (fun x => Split x LF) xs.
Proof.
  induction xs as [|x xs IH]; [congruence|]. intros _.
  destruct xs as [|y xs].
  - simpl. now rewrite app_nil_r.
  - change (Join (x :: y :: xs) nl) with (x ++ String LF (Join (y :: xs) nl))%string.
    rewrite Split_app_nl, IH by discriminate. reflexivity.
Qed.

Lemma Split_Join_lines (xs : list string) :
  xs <> [] -> Forall (fun l => Split l LF = [l]) xs ->
  Split (Join xs nl) LF = xs.
Proof.
  intros Hn Hx. rewrite Split_Join by exact Hn.
  clear Hn. induction Hx as [|x xs Hx _ IH]; simpl; [reflexivity|].
  now rewrite Hx, IH.
Qed.

Lemma skipn_nth_cons (lines : list string) :
  forall s, s < List.length lines ->
    skipn s lines = nth s lines "" :: skipn (S s) lines.
Proof.
  induction lines as [|l lines IH]; intros s Hs; simpl in Hs; [lia|].
  destruct s as [|s]; [reflexivity|].
  simpl. apply IH. lia.
Qed.

Lemma firstn_skipn_nth (lines : list string) (n : nat) :
  forall s, s + n <= List.length lines ->
    firstn n (skipn s lines) = map (fun j => nth j lines "") (seq s n).
Proof.
  induction n as [|n IH]; intros s Hs; [reflexivity|].
  rewrite skipn_nth_cons by lia. cbn [firstn seq map]. f_equal. apply IH. lia.
Qed.

Lemma lineRange_nth (lines : list string) (s e : nat) :
  s <= e < List.length lines ->
  lineRange lines s e = map (fun j => nth j lines "") (seq s (e - s + 1)).
Proof. intros H. apply firstn_skipn_nth. lia. Qed.

Lemma map_nth_seq (lines : list string) :
  map (fun j => nth j lines "") (seq 0 (List.length lines)) = lines.
Proof.
  rewrite <- (firstn_skipn_nth lines (List.length lines) 0) by lia.
  simpl. apply firstn_all.
Qed.

Lemma filter_flat_map {A B : Type} (f : B -> bool) (g : A -> list B) (l : list A) :
  filter f (flat_map g l) = flat_map (fun x => filter f (g x)) l.
Proof.
  induction l as [|x l IH]; simpl; [reflexivity|].
  now rewrite filter_app, IH.
Qed.

Lemma filter_map_comm {A B : Type} (f : B -> bool) (g : A -> B) (l : list A) :
  filter f (map g l) = map g (filter (fun x => f (g x)) l).
Proof.
  induction l as [|x l IH]; simpl; [reflexivity|].
  destruct (f (g x)); simpl; now rewrite IH.
Qed.

(* ================================================================= *)
(** ** Blocks against the lines they were read from *)

Lemma wellRanged_lines (lines : list string) (b : SchemaBlock) :
  Forall (fun l => Split l LF = [l]) lines ->
  StartPos b <= EndPos b < List.length lines ->
  wellRanged lines b = true ->
  Split (Content b) LF = map (fun j => nth j lines "") (blockRange b).
Proof.
  intros Hl Hb Hw. apply String.eqb_eq in Hw. rewrite Hw.
  rewrite lineRange_nth by exact Hb. unfold blockRange.
  apply Split_Join_lines.
  - destruct (seq (StartPos b) (EndPos b - StartPos b + 1)) eqn:E;
      [|discriminate].
    apply (f_equal (@List.length nat)) in E. rewrite length_seq in E.
    simpl in E. lia.
  - apply Forall_forall. intros l Hin. apply in_map_iff in Hin.
    destruct Hin as (j & <- & Hj). apply in_seq in Hj.
    rewrite Forall_forall in Hl. apply Hl. apply nth_In. lia.
Qed.

(** A scanned block is the text of its own line range, unless its brace
    scan ran to the end of the input with the counter at zero: then the
    block ends on its first line and its text is all the lines left. *)
Lemma scan_wellRanged (lines : list string) (i : nat) (bs : list SchemaBlock) :
  scan lines i bs ->
  Forall (fun b => wellRanged lines b = true
                   \/ (EndPos b = StartPos b
                       /\ Content b = Join (skipn (StartPos b) lines) nl)) bs.
Proof.
  assert (Hone : forall j, j < List.length lines ->
            Join (lineRange lines j j) nl = nth j lines "").
  { intros j Hj. rewrite lineRange_nth by lia.
    now replace (j - j + 1) with 1 by lia. }
  induction 1 as [i Hi | i bs Hi Hb _ IH | i bs Hi Hb Hc _ IH
                  | i b e bs Hi Hb Hc Hp _ IH | i bs Hi Hb Hc Hp _ IH];
    try constructor; auto.
  - left. unfold wellRanged. simpl. rewrite Hone by exact Hi.
    apply String.eqb_refl.
  - apply parseBlockAt_found in Hp; [|exact Hi].
    destruct Hp as (_ & Hs & He & _ & [Ht|[E Ht]]).
    + left. unfold wellRanged. rewrite Hs, He, Ht. apply String.eqb_refl.
    + right. rewrite Hs, He. now split.
  - left. unfold wellRanged. simpl. rewrite Hone by exact Hi.
    apply String.eqb_refl.
Qed.

Lemma reconstructSpec_nonBlank (blocks : list SchemaBlock) :
  filter nonBlank (flat_map (fun x => Split x LF) (reconstructSpec blocks))
  = flat_map (fun b => filter nonBlank (Split (Content b) LF)) blocks.
Proof.
  destruct blocks as [|b rest]; [reflexivity|].
  cbn [reconstructSpec flat_map]. rewrite filter_app. f_equal.
  induction rest as [|nb rest IH]; [reflexivity|].
  cbn [flat_map]. rewrite flat_map_app, !filter_app, IH. f_equal.
  unfold separatorBefore.
  destruct ((Type_ nb =? "comment") || (TrimSpace (Content nb) =? ""));
    cbn [flat_map app]; now rewrite app_nil_r.
Qed.

(** When every block is the text of its own line range, the blocks hold
    the non-blank lines of the input, each once and in order. *)
Lemma scan_nonBlank (lines : list string) (bs : list SchemaBlock) :
  Forall (fun l => Split l LF = [l]) lines ->
  scan lines 0 bs ->
  forallb (wellRanged lines) bs = true ->
  flat_map (fun b => filter nonBlank (Split (Content b) LF)) bs
  = filter nonBlank lines.
Proof.
  intros Hl Hs Hw.
  pose proof (scan_bounds _ _ _ Hs) as Hb.
  destruct (scan_covered _ _ _ Hs) as (_ & _ & Hf).
  rewrite Nat.sub_0_r in Hf.
  replace (filter nonBlank lines)
    with (filter nonBlank
            (map (fun j => nth j lines "") (seq 0 (List.length lines))))
    by now rewrite map_nth_seq.
  rewrite filter_map_comm.
  change (fun x => nonBlank (nth x lines "")) with (nonBlankAt lines).
  rewrite <- Hf. unfold coveredLines.
  rewrite filter_flat_map.
  clear Hf Hs. induction bs as [|b bs IH]; [reflexivity|].
  cbn [forallb] in Hw. apply andb_true_iff in Hw. destruct Hw as [Hw1 Hw2].
  inversion Hb as [|? ? Hb1 Hb2]; subst.
  cbn [flat_map]. rewrite map_app, IH by assumption.
  rewrite (wellRanged_lines lines b) by assumption.
  now rewrite filter_map_comm.
Qed.

Lemma reconstructSchema_nonBlank_lines (blocks : list SchemaBlock) :
  blocks <> [] ->
  filter nonBlank (Split (reconstructSchema blocks) LF)
  = flat_map (fun b => filter nonBlank (Split (Content b) LF)) blocks.
Proof.
  intros Hn. unfold reconstructSchema.
  rewrite reconstructLoop_spec. cbn [app].
  rewrite Split_Join by (destruct blocks; [congruence|discriminate]).
  apply reconstructSpec_nonBlank.
Qed.

Lemma blankLinesRemoved_length (inp out : list string) :
  blankLinesRemoved inp out -> List.length out <= List.length inp.
Proof. induction 1; simpl; lia. Qed.

(* ================================================================= *)
(** * Properties of the specification *)

(* ================================================================= *)
(** ** Errors of the scanner and of the filter *)

(** C2.  [FilterByGenerator] returns the generator-not-found error, whose
    message names the requested generator, with an empty output exactly when
    no generator block of the scanned input has the requested name; when one
    has, no error is returned. *)
Theorem generator_not_found_iff (p : SchemaParser) (g : string) :
  (FilterByGenerator p g = ("", Some (ErrGeneratorNotFound g))
   <-> ~ hasGenerator (fst (parseBlocks p)) g)
  /\ (hasGenerator (fst (parseBlocks p)) g <-> snd (FilterByGenerator p g) = None)
  /\ Error (ErrGeneratorNotFound g)
     = ("generator '" ++ g ++ "' not found in schema")%string.
Proof.
  rewrite FilterByGenerator_unfold, <- hasGenerator_existsb.
  destruct (existsb (matchesGenerator g) (fst (parseBlocks p))); simpl.
  - repeat split; auto; try discriminate. intros H. now contradiction H.
  - repeat split; auto; discriminate.
Qed.

(** C1, as stated, fails: [model Foo {] is a recognized declaration whose
    brace never closes, and filtering for [a] succeeds, with the unclosed
    line in the returned schema. *)
Lemma unclosed_declaration_is_returned :
  declares (TrimSpace (nth 1 (linesOf unclosedSchema) ""))
  /\ unmatchedOpen (flatten (skipn 1 (linesOf unclosedSchema)))
  /\ FilterByGenerator unclosedSchema "a"
     = (schema ["generator a {}"; ""; "model Foo {"], None).
Proof.
  split; [|split].
  - exists "model", "Foo {". split; [simpl; tauto|reflexivity].
  - apply unmatchedOpenb_sound. reflexivity.
  - reflexivity.
Qed.

(* ================================================================= *)
(** ** What the filter keeps *)

(** C4.  The filtered sequence is the subsequence of the scanned blocks, in
    their order, made of every datasource, model, enum, comment and other
    block and of the generator blocks named as requested; a block is kept
    whole or dropped, so every kept block has the text it had. *)
Theorem filter_selects_whole_blocks (p : SchemaParser) (g : string) :
  fst (filterLoop (fst (parseBlocks p)) g)
  = filter (selected g) (fst (parseBlocks p))
  /\ Forall (fun b => In b (fst (parseBlocks p)))
       (fst (filterLoop (fst (parseBlocks p)) g)).
Proof.
  rewrite filterLoop_spec. cbn [fst].
  split.
  - apply filter_ext_in. intros b Hb. apply retained_selected.
    pose proof (scan_kinds _ _ _ (parseFrom_scan (linesOf p) 0)) as Hk.
    rewrite Forall_forall in Hk. apply Hk.
    now rewrite parseBlocks_parseFrom in Hb.
  - apply Forall_forall. intros b Hb. now apply filter_In in Hb.
Qed.

(** C3, as amended.  When filtering succeeds, the generator blocks of the
    filtered sequence are the generator blocks of the input named as
    requested: there is at least one, each has the requested name, and
    there are as many as the input has. *)
Theorem filtered_generators_match (p : SchemaParser) (g : string) :
  snd (FilterByGenerator p g) = None ->
  filter isGenerator (fst (filterLoop (fst (parseBlocks p)) g))
  = filter (matchesGenerator g) (fst (parseBlocks p))
  /\ filter isGenerator (fst (filterLoop (fst (parseBlocks p)) g)) <> []
  /\ Forall (fun b => Name b = g)
       (filter isGenerator (fst (filterLoop (fst (parseBlocks p)) g))).
Proof.
  intros Hok. rewrite filterLoop_spec. cbn [fst].
  assert (E : filter isGenerator (filter (retained g) (fst (parseBlocks p)))
              = filter (matchesGenerator g) (fst (parseBlocks p))).
  { induction (fst (parseBlocks p)) as [|b bs IH]; [reflexivity|].
    cbn [filter]. unfold retained at 1, matchesGenerator at 1.
    destruct (isGenerator b) eqn:Eg; cbn [negb orb andb].
    - destruct (Name b =? g); cbn [filter]; [rewrite Eg|]; now rewrite IH.
    - cbn [filter]. now rewrite Eg. }
  rewrite E. split; [reflexivity|]. split.
  - apply FilterByGenerator_ok in Hok.
    destruct Hok as (b & Hin & Ht & Hn). intros Hnil.
    assert (Hb : In b (filter (matchesGenerator g) (fst (parseBlocks p)))).
    { apply filter_In. split; [exact Hin|]. now apply matchesGenerator_iff. }
    now rewrite Hnil in Hb.
  - apply Forall_forall. intros b Hb. apply filter_In in Hb.
    destruct Hb as [_ Hb]. now apply matchesGenerator_iff in Hb.
Qed.

Lemma filtered_generators_match_witness :
  snd (FilterByGenerator twinGenerators "a") = None
  /\ filter isGenerator (fst (filterLoop (fst (parseBlocks twinGenerators)) "a"))
     = filter (matchesGenerator "a") (fst (parseBlocks twinGenerators))
  /\ filter isGenerator (fst (filterLoop (fst (parseBlocks twinGenerators)) "a"))
     <> []
  /\ Forall (fun b => Name b = "a")
       (filter isGenerator
          (fst (filterLoop (fst (parseBlocks twinGenerators)) "a"))).
Proof.
  split; [reflexivity|].
  apply (filtered_generators_match twinGenerators "a"). reflexivity.
Defined.

(** C3, as stated, fails: filtering for [a] succeeds and keeps both
    generator blocks named [a]. *)
Lemma twin_generators_both_kept :
  snd (FilterByGenerator twinGenerators "a") = None
  /\ ~ exactlyOneGenerator
         (fst (filterLoop (fst (parseBlocks twinGenerators)) "a")) "a".
Proof.
  split; [reflexivity|].
  intros (b & H & _). vm_compute in H. discriminate.
Qed.

(* ================================================================= *)
(** ** The serializer and the round trip *)

(** C8.  [reconstructSchema] joins with single newlines the texts of the
    blocks in order, with one blank line in front of every block but the
    first, unless that block is a comment or its trimmed text is empty;
    nothing follows the last block. *)
Theorem reconstructSchema_spec (blocks : list SchemaBlock) :
  reconstructSchema blocks = Join (reconstructSpec blocks) nl.
Proof. unfold reconstructSchema. now rewrite reconstructLoop_spec. Qed.

(** C9, as stated, fails: the schema has one generator, the requested one,
    no blank line and no comment, and the output has a blank line between
    the two blocks; no removal of blank lines turns the schema into it. *)
Lemma blank_line_is_inserted :
  exactlyOneGenerator (fst (parseBlocks adjacentBlocks)) "a"
  /\ FilterByGenerator adjacentBlocks "a"
     = (schema ["generator a {}"; ""; "model B {}"], None)
  /\ ~ blankLinesRemoved
         (Split (content adjacentBlocks) LF)
         (Split (fst (FilterByGenerator adjacentBlocks "a")) LF).
Proof.
  split; [|split].
  - exists (mkBlock "generator" "a" "generator a {}" 0 0). now split.
  - reflexivity.
  - intros H. apply blankLinesRemoved_length in H. vm_compute in H. lia.
Qed.

(* ================================================================= *)
(** ** The scanner *)




(** C5, as amended.  The line ranges [StartPos .. EndPos] of the emitted
    blocks, one after the other, are strictly increasing line indices of the
    input, so no line is in two ranges; the non-blank lines among them are
    all the non-blank lines of the input, in order; and a line in no range
    is blank (the scanner drops a blank line only with its cursor on it,
    outside every block). *)
Theorem scanner_covers_lines (p : SchemaParser) :
  StronglySorted lt (coveredLines (fst (parseBlocks p)))
  /\ Forall (fun j => j < List.length (linesOf p))
       (coveredLines (fst (parseBlocks p)))
  /\ filter (nonBlankAt (linesOf p)) (coveredLines (fst (parseBlocks p)))
     = filter (nonBlankAt (linesOf p)) (seq 0 (List.length (linesOf p)))
  /\ Forall (fun j => In j (coveredLines (fst (parseBlocks p)))
                      \/ blank (nth j (linesOf p) "") = true)
       (seq 0 (List.length (linesOf p))).
Proof.
  rewrite parseBlocks_parseFrom. fold (linesOf p).
  destruct (scan_covered _ _ _ (parseFrom_scan (linesOf p) 0))
    as (Hin & Hs & Hf).
  rewrite Nat.sub_0_r in Hf.
  split; [exact Hs|]. split; [|split; [exact Hf|]].
  - eapply Forall_impl; [|exact Hin]. simpl. intros; lia.
  - apply Forall_forall. intros j Hj.
    destruct (blank (nth j (linesOf p) "")) eqn:Eb; [now right|left].
    assert (H : In j (filter (nonBlankAt (linesOf p))
                        (seq 0 (List.length (linesOf p))))).
    { apply filter_In. split; [exact Hj|]. unfold nonBlankAt. now rewrite Eb. }
    rewrite <- Hf in H. now apply filter_In in H.
Qed.

(** C5, as stated, fails: the blank line between the braces is part of the
    emitted block, so the lines of the blocks are not the non-blank lines of
    the input. *)
Lemma blank_line_inside_block_is_kept :
  In "" (flat_map (fun b => Split (Content b) LF) (fst (parseBlocks spacedModel)))
  /\ flat_map (fun b => Split (Content b) LF) (fst (parseBlocks spacedModel))
     <> nonBlankLines (content spacedModel).
Proof.
  split.
  - vm_compute. tauto.
  - vm_compute. discriminate.
Qed.

(** C6: on [strayBrace] the counter goes to -1 and back to 0 on the first
    line without the test for 0 being made, the loop runs out of lines with
    the counter at 0, and [parseBlockAt] reports a block that ends on line 0
    with the text of both lines; the scanner then emits line 1 once more. *)
Theorem parseBlockAt_text_past_endLine :
  parseBlockAt strayBrace 0
  = (mkBlock "model" "A" (schema ["model A } {"; "x"]) 0 0, 0, true)
  /\ Join (lineRange strayBrace 0 0) nl = "model A } {"
  /\ fst (parseBlocks (NewSchemaParser (schema strayBrace)))
     = [mkBlock "model" "A" (schema ["model A } {"; "x"]) 0 0;
        mkBlock "other" "" "x" 1 1].
Proof. repeat split. Qed.

(* ================================================================= *)
(** * Further properties of the code *)

(* ================================================================= *)
(** ** White space and braces *)

Lemma space1_low (c : ascii) : space1 c = true -> code c <= 32.
Proof.
  unfold space1. cbv zeta.
  rewrite orb_true_iff, andb_true_iff, !Nat.leb_le, Nat.eqb_eq. lia.
Qed.

Lemma space2_high (c d : ascii) :
  space2 c d = true -> 128 <= code c /\ 128 <= code d.
Proof.
  unfold space2.
  rewrite andb_true_iff, orb_true_iff, !Nat.eqb_eq. lia.
Qed.

Lemma space3_high (c d e : ascii) :
  space3 c d e = true -> 128 <= code c /\ 128 <= code d /\ 128 <= code e.
Proof.
  unfold space3.
  rewrite !orb_true_iff, !andb_true_iff, !orb_true_iff, !andb_true_iff,
    !Nat.eqb_eq, !Nat.leb_le.
  lia.
Qed.

Lemma countChar_app (c : ascii) (a b : string) :
  countChar c (a ++ b) = countChar c a + countChar c b.
Proof. induction a as [|x a IH]; simpl; [reflexivity|rewrite IH; lia]. Qed.

(** A byte is the opening brace only with code 123. *)
Lemma brace_code (c : ascii) : Ascii.eqb c "{" = true -> code c = 123.
Proof. intros H. apply Ascii.eqb_eq in H. now subst. Qed.

Lemma runes_plain (c : ascii) (s1 : string) :
  plainHead c s1 -> runes (String c s1) = (false, String c "") :: runes s1.
Proof.
  intros [H1 H]. cbn [runes]. rewrite H1.
  destruct s1 as [|d s2]; [reflexivity|]. destruct H as [H2 H].
  rewrite H2. destruct s2 as [|e s3]; [reflexivity|]. now rewrite H.
Qed.

(** Induction along the cut of a string into runes. *)
Lemma runes_ind (P : string -> Prop) :
  P "" ->
  (forall c s1, space1 c = true -> P s1 -> P (String c s1)) ->
  (forall c d s2, space1 c = false -> space2 c d = true ->
     P s2 -> P (String c (String d s2))) ->
  (forall c d e s3, space1 c = false -> space2 c d = false ->
     space3 c d e = true -> P s3 -> P (String c (String d (String e s3)))) ->
  (forall c s1, plainHead c s1 -> P s1 -> P (String c s1)) ->
  forall s, P s.
Proof.
  intros H0 H1 H2 H3 H4 s.
  remember (String.length s) as n eqn:En. revert s En.
  induction n as [n IH] using lt_wf_ind. intros s En.
  destruct s as [|c s1]; [exact H0|].
  assert (IH' : forall t, String.length t < n -> P t)
    by (intros t Ht; now apply (IH (String.length t))).
  simpl in En.
  destruct (space1 c) eqn:E1; [apply H1; auto; apply IH'; lia|].
  destruct s1 as [|d s2].
  { apply H4; [now split|apply H0]. }
  simpl in En.
  destruct (space2 c d) eqn:E2; [apply H2; auto; apply IH'; lia|].
  destruct s2 as [|e s3].
  { apply H4; [now repeat split|apply IH'; simpl; lia]. }
  simpl in En.
  destruct (space3 c d e) eqn:E3; [apply H3; auto; apply IH'; lia|].
  apply H4; [now repeat split|apply IH'; simpl; lia].
Qed.

Lemma bytesOf_cons (r : bool * string) (rs : list (bool * string)) :
  bytesOf (r :: rs) = (snd r ++ bytesOf rs)%string.
Proof.
  unfold bytesOf. destruct rs as [|r' rs]; simpl; [now rewrite append_nil_r|].
  reflexivity.
Qed.

Lemma bytesOf_app (rs1 rs2 : list (bool * string)) :
  bytesOf (rs1 ++ rs2) = (bytesOf rs1 ++ bytesOf rs2)%string.
Proof.
  induction rs1 as [|r rs1 IH]; [reflexivity|].
  cbn [app]. now rewrite !bytesOf_cons, IH, append_assoc.
Qed.

Lemma runes_OK (s : string) : Forall runeOK (runes s).
Proof.
  pattern s. apply runes_ind; clear s.
  - constructor.
  - intros c s1 E1 IH. cbn [runes]. rewrite E1. constructor; [|exact IH].
    split; [discriminate|]. intros _. unfold opens. simpl.
    destruct (Ascii.eqb c "{") eqn:E; [|reflexivity].
    apply brace_code in E. apply space1_low in E1. lia.
  - intros c d s2 E1 E2 IH. cbn [runes]. rewrite E1, E2.
    constructor; [|exact IH].
    split; [discriminate|]. intros _. unfold opens. simpl.
    apply space2_high in E2.
    destruct (Ascii.eqb c "{") eqn:Ec; [apply brace_code in Ec; lia|].
    destruct (Ascii.eqb d "{") eqn:Ed; [apply brace_code in Ed; lia|].
    reflexivity.
  - intros c d e s3 E1 E2 E3 IH. cbn [runes]. rewrite E1, E2, E3.
    constructor; [|exact IH].
    split; [discriminate|]. intros _. unfold opens. simpl.
    apply space3_high in E3.
    destruct (Ascii.eqb c "{") eqn:Ec; [apply brace_code in Ec; lia|].
    destruct (Ascii.eqb d "{") eqn:Ed; [apply brace_code in Ed; lia|].
    destruct (Ascii.eqb e "{") eqn:Ee; [apply brace_code in Ee; lia|].
    reflexivity.
  - intros c s1 Hp IH. rewrite runes_plain by exact Hp.
    constructor; [|exact IH]. split; [discriminate|discriminate].
Qed.

Lemma runes_bytes (s : string) : bytesOf (runes s) = s.
Proof.
  pattern s. apply runes_ind; clear s.
  - reflexivity.
  - intros c s1 E1 IH. cbn [runes]. rewrite E1, bytesOf_cons, IH. reflexivity.
  - intros c d s2 E1 E2 IH. cbn [runes]. rewrite E1, E2, bytesOf_cons, IH.
    reflexivity.
  - intros c d e s3 E1 E2 E3 IH. cbn [runes].
    rewrite E1, E2, E3, bytesOf_cons, IH. reflexivity.
  - intros c s1 Hp IH. rewrite runes_plain by exact Hp.
    rewrite bytesOf_cons, IH. reflexivity.
Qed.

Lemma dropSpace_OK (rs : list (bool * string)) :
  Forall runeOK rs ->
  Forall runeOK (dropSpace rs)
  /\ opens (bytesOf (dropSpace rs)) = opens (bytesOf rs).
Proof.
  induction 1 as [|[[|] b] rs [Hn Ho] Hrs IH]; cbn [dropSpace].
  - split; [constructor|reflexivity].
  - destruct IH as [IH1 IH2]. split; [exact IH1|].
    rewrite IH2, bytesOf_cons. unfold opens in *.
    rewrite countChar_app. simpl in *. rewrite Ho by reflexivity. reflexivity.
  - split; [|reflexivity]. constructor; [now split|exact Hrs].
Qed.

Lemma opens_bytes_rev (rs : list (bool * string)) :
  opens (bytesOf (rev rs)) = opens (bytesOf rs).
Proof.
  induction rs as [|r rs IH]; [reflexivity|].
  cbn [rev]. rewrite bytesOf_app, !bytesOf_cons. unfold opens in *.
  rewrite !countChar_app, IH. cbn [bytesOf map String.concat countChar]. lia.
Qed.

(** Trimming takes no opening brace away. *)
Lemma opens_TrimSpace (s : string) : opens (TrimSpace s) = opens s.
Proof.
  unfold TrimSpace.
  pose proof (runes_OK s) as H0.
  destruct (dropSpace_OK _ H0) as [H1 E1].
  assert (H2 : Forall runeOK (rev (dropSpace (runes s))))
    by now apply Forall_rev.
  destruct (dropSpace_OK _ H2) as [H3 E3].
  now rewrite opens_bytes_rev, E3, opens_bytes_rev, E1, runes_bytes.
Qed.

(** A text trims to nothing exactly when all its runes are white space. *)
Lemma TrimSpace_empty_iff (s : string) :
  TrimSpace s = "" <-> forallb fst (runes s) = true.
Proof.
  assert (Hd : forall rs, dropSpace rs = [] <-> forallb fst rs = true).
  { induction rs as [|[[|] b] rs IH]; cbn [dropSpace forallb fst andb];
      [tauto|exact IH|split; discriminate]. }
  assert (Hb : forall rs, Forall runeOK rs -> bytesOf rs = "" -> rs = []).
  { intros rs Hrs E. destruct Hrs as [|r rs [Hn _] _]; [reflexivity|].
    rewrite bytesOf_cons in E. destruct (snd r); [congruence|discriminate]. }
  unfold TrimSpace. pose proof (runes_OK s) as H0.
  destruct (dropSpace_OK _ H0) as [H1 _].
  split.
  - intros E. apply Hd.
    apply Hb in E.
    + apply (f_equal (@rev _)) in E. rewrite rev_involutive in E.
      cbn [rev] in E.
      destruct (dropSpace (runes s)) as [|[[|] b] rs] eqn:Ed; [reflexivity| |].
      * exfalso. clear - Ed.
        induction (runes s) as [|[[|] b'] l IHl]; cbn [dropSpace] in Ed;
          [discriminate|auto|congruence].
      * exfalso. cbn [rev] in E.
        assert (Hin : In (false, b) (dropSpace (rev rs ++ [(false, b)]))).
        { clear. induction (rev rs) as [|[[|] b'] l IHl]; cbn [app dropSpace];
            [now left|exact IHl|right; apply in_or_app; right; now left]. }
        now rewrite E in Hin.
    + destruct (dropSpace_OK (rev (dropSpace (runes s)))) as [H3 _];
        [now apply Forall_rev|].
      now apply Forall_rev.
  - intros E. apply Hd in E. rewrite E. reflexivity.
Qed.

Lemma code_LF : code LF = 10.
Proof. reflexivity. Qed.

(** White space at the head of a text that goes on after a newline is white
    space at the head of the text. *)
Lemma plainHead_before_newline (c : ascii) (s1 r : string) :
  plainHead c s1 -> plainHead c (s1 ++ String LF r).
Proof.
  intros [H1 H]. split; [exact H1|].
  assert (N2 : forall x, space2 x LF = false).
  { intros x. destruct (space2 x LF) eqn:E; [|reflexivity].
    apply space2_high in E. rewrite code_LF in E. lia. }
  assert (N3 : forall x y, space3 x LF y = false).
  { intros x y. destruct (space3 x LF y) eqn:E; [|reflexivity].
    apply space3_high in E. rewrite code_LF in E. lia. }
  assert (N3' : forall x y, space3 x y LF = false).
  { intros x y. destruct (space3 x y LF) eqn:E; [|reflexivity].
    apply space3_high in E. rewrite code_LF in E. lia. }
  destruct s1 as [|d s2]; cbn [append].
  - split; [apply N2|]. destruct r; [exact I|apply N3].
  - destruct H as [H2 H]. split; [exact H2|].
    destruct s2 as [|e s3]; cbn [append]; [apply N3'|exact H].
Qed.

Lemma allSpace_before_newline (a r : string) :
  forallb fst (runes (a ++ String LF r)) = true ->
  forallb fst (runes a) = true.
Proof.
  pattern a. apply runes_ind; clear a.
  - reflexivity.
  - intros c s1 E1 IH. cbn [append runes]. rewrite E1. cbn [forallb fst andb].
    exact IH.
  - intros c d s2 E1 E2 IH. cbn [append runes]. rewrite E1, E2.
    cbn [forallb fst andb]. exact IH.
  - intros c d e s3 E1 E2 E3 IH. cbn [append runes]. rewrite E1, E2, E3.
    cbn [forallb fst andb]. exact IH.
  - intros c s1 Hp _. cbn [append].
    rewrite (runes_plain c (s1 ++ String LF r))
      by now apply plainHead_before_newline.
    discriminate.
Qed.

(** A text whose first line is not blank is not blank. *)
Lemma TrimSpace_first_line (a r : string) :
  TrimSpace a <> "" -> TrimSpace (a ++ String LF r) <> "".
Proof.
  rewrite !TrimSpace_empty_iff. intros H E. apply H.
  now apply allSpace_before_newline in E.
Qed.

Lemma Join_cons (l : string) (ls : list string) :
  Join (l :: ls) nl = l \/ exists r, Join (l :: ls) nl = (l ++ String LF r)%string.
Proof.
  destruct ls as [|l' ls]; [now left|right].
  now exists (Join (l' :: ls) nl).
Qed.

(** [strings.Index] finds no opening brace exactly when there is none. *)
Lemma Index_brace_iff (s : string) : Index s "{" = (-1)%Z <-> opens s = 0.
Proof.
  unfold Index, opens.
  assert (G : String.index 0 "{" s = None <-> countChar "{" s = 0).
  { induction s as [|b s IH]; [now split|].
    cbn [String.index String.prefix countChar].
    destruct (ascii_dec "{" b) as [<-|Hb].
    - destruct s; simpl; split; discriminate.
    - destruct (Ascii.eqb_spec b "{") as [->|_]; [congruence|].
      destruct (String.index 0 "{" s); simpl in *; [|exact IH].
      split; [discriminate|]. intros H. apply IH in H. discriminate. }
  destruct (String.index 0 "{" s).
  - split; [lia|]. intros H. apply G in H. discriminate.
  - split; [intros _; now apply G|reflexivity].
Qed.

Lemma opens_flatten_zero (ls : list string) :
  opens (flatten ls) = 0 <-> existsb (fun l => Contains l "{") ls = false.
Proof.
  induction ls as [|l ls IH]; [now split|].
  cbn [flatten fold_right existsb]. fold (flatten ls).
  unfold opens in *. rewrite countChar_app, orb_false_iff, <- IH.
  unfold Contains.
  pose proof (Index_brace_iff l) as Hl. unfold opens in Hl.
  destruct (Z.leb_spec 0 (Index l "{")) as [Hp|Hn].
  - split; [|intros [? _]; discriminate].
    intros H. assert (countChar "{" l = 0) by lia.
    apply Hl in H0. lia.
  - assert (Index l "{" = (-1)%Z).
    { unfold Index in *. destruct (String.index 0 "{" l); lia. }
    apply Hl in H. rewrite H. simpl. tauto.
Qed.

(** With an opening brace somewhere from the start line on, the search for
    the opening brace of [parseBlockAt] succeeds. *)
Lemma open_brace_found (lines : list string) (s : nat) :
  s < List.length lines ->
  0 < opens (flatten (skipn s lines)) ->
  (if (Index (TrimSpace (nth s lines "")) "{" =? -1)%Z
   then if existsb (fun l => Contains l "{") (skipn (s + 1) lines)
        then 0%Z else (-1)%Z
   else Index (TrimSpace (nth s lines "")) "{") <> (-1)%Z.
Proof.
  intros Hs Ho.
  destruct (Z.eqb_spec (Index (TrimSpace (nth s lines "")) "{") (-1)) as [E|E];
    [|exact E].
  apply Index_brace_iff in E. rewrite opens_TrimSpace in E.
  rewrite skipn_nth_cons in Ho by exact Hs.
  cbn [flatten fold_right] in Ho. fold (flatten (skipn (S s) lines)) in Ho.
  unfold opens in *. rewrite countChar_app, E in Ho.
  replace (s + 1) with (S s) by lia.
  destruct (existsb (fun l => Contains l "{") (skipn (S s) lines)) eqn:Ex;
    [discriminate|].
  apply opens_flatten_zero in Ex. unfold opens in Ex. lia.
Qed.

(* ================================================================= *)
(** ** The closing brace of a block *)

Lemma depth_cons (d : ascii) (s : string) :
  depth (String d s)
  = ((if Ascii.eqb d "{" then 1 else 0) - (if Ascii.eqb d "}" then 1 else 0)
     + depth s)%Z.
Proof.
  unfold depth, opens, closes. cbn [countChar].
  destruct (Ascii.eqb d "{"), (Ascii.eqb d "}"); lia.
Qed.

Lemma countBraces_no_close (P : string) :
  forall bc, noCloseIn bc P -> countBraces P bc = ((bc + depth P)%Z, false).
Proof.
  induction P as [|d P IH]; intros bc H.
  - simpl. unfold depth, opens, closes. simpl. f_equal. lia.
  - assert (Htail : forall p1 p2, P = (p1 ++ "}" ++ p2)%string ->
              (bc + depth (String d p1) - 1 <> 0)%Z).
    { intros p1 p2 E. apply (H (String d p1) p2). cbn [append]. now rewrite E. }
    assert (Hhead : d = "}"%char -> (bc - 1 <> 0)%Z).
    { intros ->. specialize (H "" P eq_refl).
      unfold depth, opens, closes in H. simpl in H. lia. }
    cbn [countBraces]. rewrite depth_cons.
    destruct (Ascii.eqb_spec d "{") as [Ed|Ed].
    + assert (Ed' : Ascii.eqb d "}" = false) by now subst.
      rewrite Ed'. rewrite IH; [f_equal; lia|].
      intros p1 p2 E. specialize (Htail p1 p2 E).
      rewrite depth_cons, Ed' in Htail. subst d.
      rewrite Ascii.eqb_refl in Htail. lia.
    + destruct (Ascii.eqb_spec d "}") as [Ec|Ec].
      * specialize (Hhead Ec). apply Z.eqb_neq in Hhead. cbv zeta.
        rewrite Hhead. rewrite IH; [f_equal; lia|].
        intros p1 p2 E. specialize (Htail p1 p2 E).
        rewrite depth_cons in Htail. subst d.
        rewrite Ascii.eqb_refl in Htail.
        change (Ascii.eqb "}" "{") with false in Htail. lia.
      * rewrite IH; [f_equal; lia|].
        intros p1 p2 E. specialize (Htail p1 p2 E).
        rewrite depth_cons in Htail.
        destruct (Ascii.eqb_spec d "{"); [contradiction|].
        destruct (Ascii.eqb_spec d "}"); [contradiction|]. lia.
Qed.

Lemma flatten_app (l1 l2 : list string) :
  flatten (l1 ++ l2) = (flatten l1 ++ flatten l2)%string.
Proof.
  induction l1 as [|l l1 IH]; [reflexivity|].
  cbn [app flatten fold_right]. fold (flatten (l1 ++ l2)). fold (flatten l1).
  now rewrite IH, append_assoc.
Qed.

(** Lines read without the [goto] only add to [contentLines]. *)
Lemma scanLines_app (pre post : list string) :
  forall (i : nat) (bc : Z) (cl : list string) (e0 : nat),
    snd (countBraces (flatten pre) bc) = false ->
    scanLines (pre ++ post) i bc cl e0
    = scanLines post (i + List.length pre) (fst (countBraces (flatten pre) bc))
        (cl ++ pre) e0.
Proof.
  induction pre as [|l pre IH]; intros i bc cl e0 H.
  - simpl. now rewrite app_nil_r, Nat.add_0_r.
  - cbn [app scanLines]. cbn [flatten fold_right] in *. fold (flatten pre) in *.
    rewrite countBraces_app in *.
    destruct (countBraces l bc) as [bc1 [|]]; [discriminate|].
    rewrite IH by exact H. cbn [List.length]. rewrite <- app_assoc.
    f_equal. lia.
Qed.

Lemma skipn_split (lines : list string) (s e : nat) :
  s <= e < List.length lines ->
  skipn s lines
  = firstn (e - s) (skipn s lines) ++ nth e lines "" :: skipn (S e) lines.
Proof.
  intros H.
  rewrite <- (firstn_skipn (e - s) (skipn s lines)) at 1. f_equal.
  rewrite skipn_skipn. replace (e - s + s) with e by lia.
  apply skipn_nth_cons. lia.
Qed.

Lemma depth_app (a b : string) : depth (a ++ b) = (depth a + depth b)%Z.
Proof. unfold depth, opens, closes. rewrite !countChar_app. lia. Qed.

(** X1.  A declaration is read up to the line of the first closing brace
    that brings the counter to zero: [parseBlockAt] reports a block of the
    declared kind and name, from the start line to that line, whose text is
    these lines joined by newlines. *)
Theorem parseBlockAt_closes (lines : list string) (s e : nat) (p : string) :
  s <= e < List.length lines ->
  declares (TrimSpace (nth s lines "")) ->
  closesOn lines s e p ->
  parseBlockAt lines s
  = (mkBlock (fst (matchBlockType (TrimSpace (nth s lines "")) blockTypes))
       (snd (matchBlockType (TrimSpace (nth s lines "")) blockTypes))
       (Join (lineRange lines s e) nl) s e,
     e, true).
Proof.
  intros Hse Hd ([q Hq] & Hdep & Hno).
  set (pre := firstn (e - s) (skipn s lines)) in *.
  assert (Hsplit : skipn s lines = pre ++ nth e lines "" :: skipn (S e) lines)
    by now apply skipn_split.
  assert (Hlen : List.length pre = e - s).
  { unfold pre. rewrite length_firstn, length_skipn. lia. }
  pose proof (countBraces_no_close _ _ Hno) as Hc.
  rewrite Hdep in Hc. rewrite countBraces_app in Hc.
  destruct (countBraces (flatten pre) 0) as [b' [|]] eqn:Epre; [discriminate|].
  assert (Hline : countBraces (nth e lines "") b' = (0%Z, true)).
  { rewrite Hq, countBraces_app, Hc. reflexivity. }
  assert (Hscan : scanLines (skipn s lines) s 0 [] s
                  = (0%Z, pre ++ [nth e lines ""], e)).
  { rewrite Hsplit, scanLines_app by now rewrite Epre.
    rewrite Epre. cbn [fst scanLines app]. rewrite Hline.
    do 2 f_equal. lia. }
  assert (Hrange : lineRange lines s e = pre ++ [nth e lines ""]).
  { unfold lineRange. rewrite Hsplit at 1.
    rewrite firstn_app, Hlen.
    replace (e - s + 1 - (e - s)) with 1 by lia.
    rewrite firstn_all2 by lia. reflexivity. }
  assert (Hopen : 0 < opens (flatten (skipn s lines))).
  { rewrite Hsplit, flatten_app. cbn [flatten fold_right]. rewrite Hq.
    assert (Hd1 : depth (flatten pre ++ p) = 1%Z) by exact Hdep.
    unfold depth in Hd1. unfold opens in *.
    rewrite !countChar_app in *. lia. }
  assert (Hs : s < List.length lines) by lia.
  pose proof (open_brace_found lines s Hs Hopen) as Hb.
  apply matchBlockType_iff in Hd.
  unfold parseBlockAt.
  destruct (matchBlockType (TrimSpace (nth s lines "")) blockTypes) as [bt bn].
  cbn [fst snd] in *. apply String.eqb_neq in Hd. rewrite Hd. cbv zeta.
  apply Z.eqb_neq in Hb. rewrite Hb, Hscan. cbn [negb Z.eqb].
  now rewrite Hrange.
Qed.

(** The test of the scan, read backwards: where the [goto] is not taken, no
    closing brace brought the counter to zero. *)
Lemma countBraces_open (P : string) :
  forall bc, snd (countBraces P bc) = false ->
    noCloseIn bc P /\ fst (countBraces P bc) = (bc + depth P)%Z.
Proof.
  induction P as [|d P IH]; intros bc H.
  - split.
    + intros [|x p1] p2 E; discriminate.
    + unfold depth, opens, closes. simpl. lia.
  - cbn [countBraces] in *. rewrite depth_cons.
    destruct (Ascii.eqb_spec d "{") as [Ed|Ed].
    + assert (Ed' : Ascii.eqb d "}" = false) by now subst.
      rewrite Ed'. destruct (IH _ H) as [IH1 IH2]. split; [|rewrite IH2; lia].
      intros [|x p1] p2 E; cbn [append] in E; injection E as Ex E.
      * subst d. discriminate.
      * subst x. specialize (IH1 p1 p2 E). rewrite depth_cons, Ed'. subst d.
        rewrite Ascii.eqb_refl. lia.
    + destruct (Ascii.eqb_spec d "}") as [Ec|Ec].
      * cbv zeta in H. destruct (Z.eqb_spec (bc - 1) 0) as [|Hne];
          [discriminate|].
        destruct (IH _ H) as [IH1 IH2]. split; [|rewrite IH2; lia].
        intros [|x p1] p2 E; cbn [append] in E; injection E as Ex E.
        -- unfold depth, opens, closes. simpl. lia.
        -- subst x. specialize (IH1 p1 p2 E). rewrite depth_cons. subst d.
           rewrite Ascii.eqb_refl. change (Ascii.eqb "}" "{") with false. lia.
      * destruct (IH _ H) as [IH1 IH2]. split; [|rewrite IH2; lia].
        intros [|x p1] p2 E; cbn [append] in E; injection E as Ex E.
        -- now subst d.
        -- subst x. specialize (IH1 p1 p2 E). rewrite depth_cons.
           destruct (Ascii.eqb_spec d "{"); [contradiction|].
           destruct (Ascii.eqb_spec d "}"); [contradiction|]. lia.
Qed.

(** Where the [goto] is taken, the line has a closing brace that is the
    first to bring the counter to zero. *)
Lemma countBraces_goto (l : string) :
  forall bc bc', countBraces l bc = (bc', true) ->
    exists p q, l = (p ++ "}" ++ q)%string
                /\ noCloseIn bc p /\ (bc + depth p = 1)%Z.
Proof.
  induction l as [|d l IH]; intros bc bc' H; [discriminate|].
  cbn [countBraces] in H.
  assert (Hcons : forall bc1,
    (exists p q, l = (p ++ "}" ++ q)%string
                 /\ noCloseIn bc1 p /\ (bc1 + depth p = 1)%Z) ->
    (bc1 = bc + ((if Ascii.eqb d "{" then 1 else 0)
                 - (if Ascii.eqb d "}" then 1 else 0)))%Z ->
    (d = "}"%char -> (bc - 1 <> 0)%Z) ->
    exists p q, String d l = (p ++ "}" ++ q)%string
                /\ noCloseIn bc p /\ (bc + depth p = 1)%Z).
  { intros bc1 (p & q & E & Hn & Hd) Hb Hx. exists (String d p), q.
    split; [cbn [append]; now rewrite E|]. split.
    - intros [|x p1] p2 E'; cbn [append] in E'; injection E' as Ex E'.
      + unfold depth, opens, closes. simpl. specialize (Hx Ex). lia.
      + subst x. specialize (Hn p1 p2 E'). rewrite depth_cons. lia.
    - rewrite depth_cons. lia. }
  destruct (Ascii.eqb_spec d "{") as [Ed|Ed].
  - apply IH in H. apply (Hcons _ H).
    + subst d. change (Ascii.eqb "{" "}") with false. cbv iota. lia.
    + intros ->. discriminate.
  - destruct (Ascii.eqb_spec d "}") as [Ec|Ec].
    + cbv zeta in H. destruct (Z.eqb_spec (bc - 1) 0) as [Hz|Hne].
      * exists "", l. subst d. split; [reflexivity|]. split.
        -- intros [|x p1] p2 E'; discriminate.
        -- unfold depth, opens, closes. simpl. lia.
      * apply IH in H. apply (Hcons _ H); [lia|intros _; exact Hne].
    + apply IH in H. apply (Hcons _ H); [lia|intros ->; contradiction].
Qed.

Lemma noCloseIn_app (bc : Z) (a b : string) :
  noCloseIn bc a -> noCloseIn (bc + depth a) b -> noCloseIn bc (a ++ b).
Proof.
  intros Ha Hb.
  assert (G : snd (countBraces (a ++ b) bc) = false).
  { rewrite countBraces_app, (countBraces_no_close a bc Ha).
    now rewrite (countBraces_no_close b _ Hb). }
  now apply countBraces_open in G.
Qed.

(** The two ways the line scan ends: out of lines, or on the line of the
    first closing brace that brings the counter to zero. *)
Lemma scanLines_cases (rest : list string) :
  forall (i : nat) (bc : Z) (cl : list string) (e0 : nat) bc' cl' e',
    scanLines rest i bc cl e0 = (bc', cl', e') ->
    (noCloseIn bc (flatten rest) /\ bc' = (bc + depth (flatten rest))%Z
     /\ e' = e0 /\ cl' = cl ++ rest)
    \/ (exists pre l post p q,
          rest = pre ++ l :: post /\ e' = i + List.length pre
          /\ l = (p ++ "}" ++ q)%string
          /\ noCloseIn bc (flatten pre ++ p)
          /\ (bc + depth (flatten pre ++ p) = 1)%Z
          /\ cl' = cl ++ pre ++ [l] /\ bc' = 0%Z).
Proof.
  induction rest as [|l rest IH]; intros i bc cl e0 bc' cl' e' H.
  - simpl in H. injection H as <- <- <-. left.
    repeat split; [|unfold depth, opens, closes; simpl; lia|now rewrite app_nil_r].
    intros [|x p1] p2 E; discriminate.
  - cbn [scanLines] in H.
    destruct (countBraces l bc) as [bc1 [|]] eqn:El.
    + injection H as <- <- <-. right.
      pose proof (countBraces_closed _ _ _ El) as ->.
      destruct (countBraces_goto _ _ _ El) as (p & q & E & Hn & Hd).
      exists [], l, rest, p, q. cbn [app flatten fold_right List.length].
      repeat split; auto; lia.
    + assert (Hl : snd (countBraces l bc) = false) by now rewrite El.
      destruct (countBraces_open _ _ Hl) as [Hn Hf].
      rewrite El in Hf. cbn [fst] in Hf. subst bc1.
      apply IH in H. cbn [flatten fold_right]. fold (flatten rest).
      destruct H as [(Hr & -> & -> & ->)
                    |(pre & l' & post & p & q & -> & -> & -> & Hr & Hd & -> & ->)].
      * left. repeat split.
        -- now apply noCloseIn_app.
        -- rewrite depth_app. lia.
        -- now rewrite <- app_assoc.
      * right. exists (l :: pre), (p ++ "}" ++ q)%string, post, p, q.
        cbn [app flatten fold_right List.length]. fold (flatten pre).
        rewrite append_assoc.
        repeat split; try lia.
        -- now apply noCloseIn_app.
        -- rewrite depth_app. lia.
        -- now rewrite <- app_assoc.
Qed.

Lemma open_brace_needed (lines : list string) (s : nat) :
  s < List.length lines ->
  (if (Index (TrimSpace (nth s lines "")) "{" =? -1)%Z
   then if existsb (fun l => Contains l "{") (skipn (s + 1) lines)
        then 0%Z else (-1)%Z
   else Index (TrimSpace (nth s lines "")) "{") <> (-1)%Z ->
  0 < opens (flatten (skipn s lines)).
Proof.
  intros Hs H.
  rewrite skipn_nth_cons by exact Hs.
  cbn [flatten fold_right]. fold (flatten (skipn (S s) lines)).
  unfold opens in *. rewrite countChar_app.
  replace (s + 1) with (S s) in H by lia.
  destruct (Z.eqb_spec (Index (TrimSpace (nth s lines "")) "{") (-1)) as [E|E].
  - destruct (existsb (fun l => Contains l "{") (skipn (S s) lines)) eqn:Ex;
      [|congruence].
    destruct (Nat.eq_0_gt_0_cases (countChar "{" (flatten (skipn (S s) lines))))
      as [Z0|]; [|lia].
    apply opens_flatten_zero in Z0. congruence.
  - destruct (Nat.eq_0_gt_0_cases (countChar "{" (nth s lines "")))
      as [Z0|]; [|lia].
    exfalso. apply E. apply Index_brace_iff. now rewrite opens_TrimSpace.
Qed.

(** X2.  What a reported block is.  The start line is a declaration and
    some opening brace follows; the block has the declared kind and name and
    starts on the start line; and either it ends on the line of the first
    closing brace that brings the counter to zero and its text is the lines
    up to there, or no closing brace does so, the counter is zero at the end
    of the input, and the block ends on its start line with all the lines
    left as its text. *)
Theorem parseBlockAt_found_cases (lines : list string) (s : nat)
    (b : SchemaBlock) (e : nat) :
  s < List.length lines ->
  parseBlockAt lines s = (b, e, true) ->
  declares (TrimSpace (nth s lines ""))
  /\ Type_ b = fst (matchBlockType (TrimSpace (nth s lines "")) blockTypes)
  /\ Name b = snd (matchBlockType (TrimSpace (nth s lines "")) blockTypes)
  /\ StartPos b = s /\ EndPos b = e
  /\ 0 < opens (flatten (skipn s lines))
  /\ ((s <= e < List.length lines
       /\ (exists p, closesOn lines s e p)
       /\ Content b = Join (lineRange lines s e) nl)
      \/ (e = s
          /\ noCloseIn 0 (flatten (skipn s lines))
          /\ depth (flatten (skipn s lines)) = 0%Z
          /\ Content b = Join (skipn s lines) nl)).
Proof.
  intros Hs. unfold parseBlockAt.
  pose proof (matchBlockType_iff (TrimSpace (nth s lines ""))) as Hd.
  destruct (matchBlockType (TrimSpace (nth s lines "")) blockTypes) as [bt bn].
  cbn [fst snd] in *.
  destruct (String.eqb_spec bt "") as [|Hbt]; [discriminate|].
  cbv zeta.
  match goal with |- context [if (?x =? -1)%Z then _ else _] =>
    destruct (Z.eqb_spec x (-1)) as [|Hb]; [discriminate|] end.
  apply open_brace_needed in Hb; [|exact Hs].
  destruct (scanLines (skipn s lines) s 0 [] s) as [[bc cl] e1] eqn:Escan.
  destruct (Z.eqb_spec bc 0) as [->|]; [|discriminate].
  cbn [negb]. intros [= <- <-]. cbn [Type_ Name Content StartPos EndPos].
  split; [now apply Hd|]. do 5 (split; [auto|]).
  apply scanLines_cases in Escan.
  destruct Escan as [(Hn & Hz & -> & ->)
                    |(pre & l & post & p & q & Hsplit & -> & -> & Hn & Hdp & -> & _)].
  - right. repeat split; auto; lia.
  - left.
    assert (Hlen : List.length (skipn s lines) = List.length lines - s)
      by apply length_skipn.
    rewrite Hsplit, length_app in Hlen. cbn [List.length] in Hlen.
    assert (Hpre : firstn (s + List.length pre - s) (skipn s lines) = pre).
    { rewrite Hsplit. replace (s + List.length pre - s) with (List.length pre)
        by lia.
      rewrite firstn_app, Nat.sub_diag, firstn_all. cbn [firstn].
      now rewrite app_nil_r. }
    split; [lia|]. split.
    + exists p. unfold closesOn. rewrite Hpre. split; [|split; [lia|exact Hn]].
      exists q.
      replace (nth (s + List.length pre) lines "")
        with (nth (List.length pre) (skipn s lines) "")
        by now rewrite nth_skipn.
      rewrite Hsplit. apply nth_middle.
    + cbn [app]. f_equal. unfold lineRange. rewrite Hsplit.
      replace (s + List.length pre - s + 1) with (List.length pre + 1) by lia.
      rewrite firstn_app.
      replace (List.length pre + 1 - List.length pre) with 1 by lia.
      rewrite firstn_all2 by lia. reflexivity.
Qed.

(* ================================================================= *)
(** ** Texts of the scanned blocks *)

Lemma lineRange_cons (lines : list string) (s e : nat) :
  s < List.length lines ->
  lineRange lines s e = nth s lines "" :: firstn (e - s) (skipn (S s) lines).
Proof.
  intros Hs. unfold lineRange. rewrite skipn_nth_cons by exact Hs.
  now replace (e - s + 1) with (S (e - s)) by lia.
Qed.

(** No scanned block has a blank text. *)
Lemma scan_text_not_blank (lines : list string) (i : nat) (bs : list SchemaBlock) :
  scan lines i bs -> Forall (fun b => TrimSpace (Content b) <> "") bs.
Proof.
  induction 1 as [i Hi | i bs Hi Hb _ IH | i bs Hi Hb Hc _ IH
                  | i b e bs Hi Hb Hc Hp _ IH | i bs Hi Hb Hc Hp _ IH];
    try constructor; auto.
  apply parseBlockAt_found in Hp; [|exact Hi].
  destruct Hp as (_ & _ & _ & _ & Ht).
  assert (G : forall ls, TrimSpace (Join (nth i lines "" :: ls) nl) <> "").
  { intros ls. destruct (Join_cons (nth i lines "") ls) as [->|[r ->]];
      [exact Hb|now apply TrimSpace_first_line]. }
  destruct Ht as [->|[_ ->]].
  - rewrite lineRange_cons by exact Hi. apply G.
  - rewrite skipn_nth_cons by exact Hi. apply G.
Qed.

(** The lines of a scanned block are lines of the input. *)
Lemma scan_text_lines (lines : list string) (i : nat) (bs : list SchemaBlock) :
  Forall (fun l => Split l LF = [l]) lines ->
  scan lines i bs ->
  Forall (fun b => incl (Split (Content b) LF) lines) bs.
Proof.
  intros Hl Hs.
  pose proof (scan_bounds _ _ _ Hs) as Hb.
  pose proof (scan_wellRanged _ _ _ Hs) as Hw.
  rewrite Forall_forall in *. intros b Hin.
  specialize (Hb b Hin). specialize (Hw b Hin).
  assert (Hsub : forall ls, ls <> [] -> incl ls lines ->
            incl (Split (Join ls nl) LF) lines).
  { intros ls Hn Hi. rewrite Split_Join_lines; [exact Hi|exact Hn|].
    apply Forall_forall. intros l Hl'. apply Hl. now apply Hi. }
  destruct Hw as [Hw|[_ ->]].
  - apply String.eqb_eq in Hw. rewrite Hw. apply Hsub.
    + rewrite lineRange_cons by lia. discriminate.
    + unfold lineRange. intros l Hl'.
      apply (In_nth _ _ "") in Hl'. destruct Hl' as (n & Hn & <-).
      rewrite nth_firstn in *.
      destruct (n <? EndPos b - StartPos b + 1)%nat eqn:En.
      * rewrite nth_skipn. apply nth_In. rewrite length_firstn, length_skipn in Hn.
        apply Nat.ltb_lt in En. lia.
      * rewrite length_firstn, length_skipn in Hn. apply Nat.ltb_ge in En. lia.
  - apply Hsub.
    + rewrite skipn_nth_cons by lia. discriminate.
    + intros l Hl'. apply (In_nth _ _ "") in Hl'. destruct Hl' as (n & Hn & <-).
      rewrite nth_skipn. apply nth_In. rewrite length_skipn in Hn. lia.
Qed.

Lemma Join_empty (xs : list string) :
  Join xs nl = "" -> Forall (fun x => x = "") xs.
Proof.
  destruct xs as [|x [|y xs]]; intros H.
  - constructor.
  - simpl in H. subst. repeat constructor.
  - exfalso. change (Join (x :: y :: xs) nl)
      with (x ++ String LF (Join (y :: xs) nl))%string in H.
    destruct x; discriminate.
Qed.

Lemma reconstructSpec_In (blocks : list SchemaBlock) (x : string) :
  In x (reconstructSpec blocks)
  <-> (exists b, In b blocks /\ x = Content b)
      \/ (x = "" /\ exists b, In b (tl blocks) /\ separatorBefore b = [""]).
Proof.
  destruct blocks as [|b0 rest]; cbn [reconstructSpec tl].
  - split; [intros []|]. intros [(b & [] & _)|(_ & b & [] & _)].
  - cbn [In]. rewrite in_flat_map. split.
    + intros [<-|(b & Hb & Hx)]; [left; exists b0; split; auto; now left|].
      apply in_app_or in Hx. destruct Hx as [Hx|[<-|[]]].
      * right. unfold separatorBefore in *.
        destruct ((Type_ b =? "comment") || (TrimSpace (Content b) =? ""))
          eqn:Eb; [destruct Hx|].
        destruct Hx as [<-|[]]. split; [reflexivity|]. exists b.
        split; [exact Hb|now rewrite Eb].
      * left. exists b. split; [now right|reflexivity].
    + intros [(b & [<-|Hb] & ->)|(-> & b & Hb & Hs)].
      * now left.
      * right. exists b. split; [exact Hb|]. apply in_or_app. right. now left.
      * right. exists b. split; [exact Hb|]. apply in_or_app. left.
        rewrite Hs. now left.
Qed.

Lemma scan_all_blank (lines : list string) (i : nat) (bs : list SchemaBlock) :
  scan lines i bs -> forallb blank lines = true -> bs = [].
Proof.
  intros Hs Hall.
  assert (Hb : forall j, j < List.length lines -> TrimSpace (nth j lines "") = "").
  { intros j Hj. rewrite forallb_forall in Hall.
    apply String.eqb_eq. apply (Hall (nth j lines "")). now apply nth_In. }
  induction Hs as [i Hi | i bs Hi Hb' _ IH | i bs Hi Hb' Hc _ IH
                  | i b e bs Hi Hb' Hc Hp _ IH | i bs Hi Hb' Hc Hp _ IH];
    auto; now specialize (Hb i Hi).
Qed.

(** X3.  The scanner emits no block exactly when every line of the input is
    blank; the empty input is such an input. *)
Theorem no_blocks_iff_blank (p : SchemaParser) :
  fst (parseBlocks p) = [] <-> forallb blank (linesOf p) = true.
Proof.
  rewrite parseBlocks_parseFrom. fold (linesOf p).
  pose proof (parseFrom_scan (linesOf p) 0) as Hs.
  split; [|exact (scan_all_blank _ _ _ Hs)].
  intros E. rewrite E in Hs.
  destruct (scan_covered _ _ _ Hs) as (_ & _ & Hf).
  rewrite Nat.sub_0_r in Hf. cbn [coveredLines flat_map filter] in Hf.
  apply forallb_forall. intros l Hl.
  apply (In_nth _ _ "") in Hl. destruct Hl as (j & Hj & <-).
  destruct (blank (nth j (linesOf p) "")) eqn:Eb; [reflexivity|].
  assert (Hin : In j (filter (nonBlankAt (linesOf p))
                        (seq 0 (List.length (linesOf p))))).
  { apply filter_In. split; [apply in_seq; lia|].
    unfold nonBlankAt. now rewrite Eb. }
  now rewrite <- Hf in Hin.
Qed.

(** X4.  The output of [FilterByGenerator] is the empty string exactly when
    it returns the generator-not-found error: a successful call never
    returns an empty schema. *)
Theorem output_empty_iff_error (p : SchemaParser) (g : string) :
  fst (FilterByGenerator p g) = ""
  <-> snd (FilterByGenerator p g) = Some (ErrGeneratorNotFound g).
Proof.
  rewrite FilterByGenerator_unfold.
  destruct (existsb (matchesGenerator g) (fst (parseBlocks p))) eqn:E;
    cbn [fst snd]; [|now split].
  split; [|discriminate]. intros Hout. exfalso.
  apply existsb_exists in E. destruct E as (b & Hin & Hm).
  assert (Hk : In b (filter (retained g) (fst (parseBlocks p)))).
  { apply filter_In. split; [exact Hin|]. unfold retained.
    unfold matchesGenerator in Hm. apply andb_true_iff in Hm.
    destruct Hm as [_ ->]. apply orb_true_r. }
  unfold reconstructSchema in Hout. rewrite reconstructLoop_spec in Hout.
  cbn [app] in Hout. apply Join_empty in Hout. rewrite Forall_forall in Hout.
  assert (Hc : Content b = "").
  { apply Hout. apply reconstructSpec_In. left. now exists b. }
  pose proof (scan_text_not_blank _ _ _ (parseFrom_scan (linesOf p) 0)) as Hn.
  rewrite Forall_forall in Hn. rewrite parseBlocks_parseFrom in Hin.
  specialize (Hn b Hin). rewrite Hc in Hn. now apply Hn.
Qed.

(** X5.  Filtering what a filter kept: for the same name nothing changes;
    for another name every generator block is gone and none is found. *)
Theorem filter_again (blocks : list SchemaBlock) (g g' : string) :
  filterLoop (fst (filterLoop blocks g)) g'
  = if g' =? g then filterLoop blocks g
    else (filter (fun b => negb (isGenerator b)) blocks, false).
Proof.
  rewrite !filterLoop_spec. cbn [fst].
  destruct (String.eqb_spec g' g) as [->|Hne].
  - f_equal.
    + induction blocks as [|b bs IH]; [reflexivity|].
      cbn [filter]. destruct (retained g b) eqn:Er; [|exact IH].
      cbn [filter]. now rewrite Er, IH.
    + induction blocks as [|b bs IH]; [reflexivity|].
      cbn [filter existsb]. rewrite <- IH.
      destruct (retained g b) eqn:Er; [reflexivity|].
      unfold retained, matchesGenerator in *.
      destruct (isGenerator b), (Name b =? g); simpl in *; congruence.
  - f_equal.
    + induction blocks as [|b bs IH]; [reflexivity|].
      cbn [filter]. unfold retained at 2.
      destruct (isGenerator b) eqn:Eg; cbn [negb orb].
      * destruct (String.eqb_spec (Name b) g) as [En|En]; [|exact IH].
        cbn [filter]. unfold retained at 1. rewrite Eg. cbn [negb orb].
        destruct (String.eqb_spec (Name b) g'); [congruence|exact IH].
      * cbn [filter]. unfold retained at 1. rewrite Eg. cbn [negb orb].
        now rewrite IH.
    + induction blocks as [|b bs IH]; [reflexivity|].
      cbn [filter]. unfold retained at 1.
      destruct (isGenerator b) eqn:Eg; cbn [negb orb].
      * destruct (String.eqb_spec (Name b) g) as [En|En]; [|exact IH].
        cbn [existsb]. rewrite IH. unfold matchesGenerator. rewrite Eg.
        destruct (String.eqb_spec (Name b) g'); [congruence|reflexivity].
      * cbn [existsb]. rewrite IH. unfold matchesGenerator. now rewrite Eg.
Qed.

(** X6.  No scanned block has a blank text, so on what the scanner emits
    the serializer leaves the blank line out in front of comment blocks
    only: the test for an empty trimmed text never decides. *)
Theorem separator_only_before_comments (p : SchemaParser) (g : string) :
  Forall (fun b => TrimSpace (Content b) <> "") (fst (parseBlocks p))
  /\ reconstructSchema (fst (parseBlocks p))
     = Join (layout (fst (parseBlocks p))) nl
  /\ reconstructSchema (fst (filterLoop (fst (parseBlocks p)) g))
     = Join (layout (fst (filterLoop (fst (parseBlocks p)) g))) nl.
Proof.
  pose proof (scan_text_not_blank _ _ _
                (parseFrom_scan (Split (content p) LF) 0)) as Hn.
  rewrite <- parseBlocks_parseFrom in Hn.
  assert (G : forall bs, Forall (fun b => TrimSpace (Content b) <> "") bs ->
            reconstructSchema bs = Join (layout bs) nl).
  { intros bs Hbs. unfold reconstructSchema. rewrite reconstructLoop_spec.
    cbn [app]. f_equal. destruct Hbs as [|b0 rest _ Hrest]; [reflexivity|].
    cbn [reconstructSpec layout]. f_equal.
    induction Hrest as [|b rest Hb _ IH]; [reflexivity|].
    cbn [flat_map]. rewrite IH. f_equal. f_equal.
    unfold separatorBefore, separatorOfKind.
    apply String.eqb_neq in Hb. rewrite Hb. now rewrite orb_false_r. }
  split; [exact Hn|]. split; [now apply G|].
  apply G. rewrite filterLoop_spec. cbn [fst].
  rewrite Forall_forall in *. intros b Hb. apply filter_In in Hb.
  now apply Hn.
Qed.

(** X7.  No line of the output is made up: every line of what
    [FilterByGenerator] returns is a line of the input or is empty. *)
Theorem output_lines_from_input (p : SchemaParser) (g : string) :
  Forall (fun l => l = "" \/ In l (linesOf p))
    (Split (fst (FilterByGenerator p g)) LF).
Proof.
  rewrite FilterByGenerator_unfold.
  destruct (existsb (matchesGenerator g) (fst (parseBlocks p))) eqn:E;
    cbn [fst]; [|repeat constructor].
  pose proof (scan_text_lines _ _ _ (Split_pieces (content p))
                (parseFrom_scan (Split (content p) LF) 0)) as Hl.
  rewrite <- parseBlocks_parseFrom in Hl. rewrite Forall_forall in Hl.
  unfold reconstructSchema. rewrite reconstructLoop_spec. cbn [app].
  destruct (reconstructSpec (filter (retained g) (fst (parseBlocks p))))
    as [|x xs] eqn:Er; [repeat constructor|].
  rewrite Split_Join by discriminate. rewrite <- Er.
  apply Forall_forall. intros l Hin. apply in_flat_map in Hin.
  destruct Hin as (y & Hy & Hin). apply reconstructSpec_In in Hy.
  destruct Hy as [(b & Hb & ->)|(-> & _)].
  - right. apply filter_In in Hb. now apply (Hl b (proj1 Hb)).
  - left. destruct Hin as [<-|[]]. reflexivity.
Qed.

(** X8.  A comment or other block of the scanner is one line: its name is
    empty, it starts and ends on the same line, its text is that line as it
    is in the input, and it is a comment exactly when the trimmed line
    starts with the comment marker. *)
Theorem single_line_blocks (p : SchemaParser) :
  Forall (fun b =>
            Type_ b = "comment" \/ Type_ b = "other" ->
            Name b = "" /\ StartPos b = EndPos b
            /\ Content b = nth (StartPos b) (linesOf p) ""
            /\ (Type_ b = "comment"
                <-> HasPrefix (TrimSpace (Content b)) "//" = true))
    (fst (parseBlocks p)).
Proof.
  rewrite parseBlocks_parseFrom. fold (linesOf p).
  induction (parseFrom_scan (linesOf p) 0)
    as [i Hi | i bs Hi Hb _ IH | i bs Hi Hb Hc _ IH
        | i b e bs Hi Hb Hc Hp _ IH | i bs Hi Hb Hc Hp _ IH];
    try constructor; auto.
  - intros _. unfold commentBlock. cbn [Type_ Name StartPos EndPos Content].
    repeat split; auto.
  - intros Hk. exfalso. apply parseBlockAt_found in Hp; [|exact Hi].
    destruct Hp as (_ & _ & _ & Hin & _). simpl in Hin.
    destruct Hk as [Hk|Hk]; rewrite Hk in Hin;
      repeat (destruct Hin as [Hin|Hin]; [discriminate|]); exact Hin.
  - intros _. unfold otherBlock. cbn [Type_ Name StartPos EndPos Content].
    repeat split; auto; [discriminate|].
    intros H. rewrite Hc in H. discriminate.
Qed.

(* ================================================================= *)
(** ** The name of a declaration *)

Lemma plainByte_head (c : ascii) (s1 : string) :
  plainByte c = true -> plainHead c s1.
Proof.
  unfold plainByte. rewrite andb_true_iff, Nat.ltb_lt, negb_true_iff.
  intros [Hc H1]. split; [exact H1|].
  destruct s1 as [|d s2]; [exact I|]. split.
  - destruct (space2 c d) eqn:E; [|reflexivity].
    apply space2_high in E. lia.
  - destruct s2 as [|e s3]; [exact I|].
    destruct (space3 c d e) eqn:E; [|reflexivity].
    apply space3_high in E. lia.
Qed.

Lemma plainHead_prefix (c : ascii) (a w : string) :
  plainHead c (a ++ w) -> plainHead c a.
Proof.
  intros [H1 H]. split; [exact H1|].
  destruct a as [|d a]; [exact I|]. cbn [append] in H. destruct H as [H2 H].
  split; [exact H2|]. destruct a as [|e a]; [exact I|exact H].
Qed.

Lemma runes_space1 (c : ascii) (s1 : string) :
  space1 c = true -> runes (String c s1) = (true, String c "") :: runes s1.
Proof. intros H. cbn [runes]. now rewrite H. Qed.

Lemma runes_word (w s : string) :
  plainWord w = true -> runes (w ++ s) = chunksOf w ++ runes s.
Proof.
  unfold plainWord, chunksOf.
  induction w as [|c w IH]; [reflexivity|].
  cbn [list_ascii_of_string forallb map append app].
  rewrite andb_true_iff. intros [Hc Hw].
  rewrite runes_plain by now apply plainByte_head.
  now rewrite IH.
Qed.

Lemma fieldsAux_word (w : string) (R : list (bool * string)) :
  forall cur, fieldsAux (chunksOf w ++ R) (Some cur)
              = fieldsAux R (Some (cur ++ w)%string).
Proof.
  unfold chunksOf.
  induction w as [|c w IH]; intros cur.
  - cbn. now rewrite append_nil_r.
  - cbn [list_ascii_of_string map app fieldsAux]. rewrite IH.
    now rewrite append_assoc.
Qed.

(** A prefix of the runes of a text is the runes of its own bytes. *)
Lemma runes_prefix (s : string) :
  forall keep tail, runes s = keep ++ tail -> runes (bytesOf keep) = keep.
Proof.
  pattern s. apply runes_ind; clear s.
  - intros keep tail E. cbn [runes] in E. symmetry in E.
    apply app_eq_nil in E. destruct E as [-> _]. reflexivity.
  - intros c s1 E1 IH [|r keep] tail E; [reflexivity|].
    rewrite runes_space1 in E by exact E1. cbn [app] in E.
    injection E as <- E. rewrite bytesOf_cons. cbn [snd append].
    rewrite runes_space1 by exact E1. f_equal. now apply (IH _ tail).
  - intros c d s2 E1 E2 IH [|r keep] tail E; [reflexivity|].
    cbn [runes] in E. rewrite E1, E2 in E. cbn [app] in E.
    injection E as <- E. rewrite bytesOf_cons. cbn [snd append runes].
    rewrite E1, E2. f_equal. now apply (IH _ tail).
  - intros c d e s3 E1 E2 E3 IH [|r keep] tail E; [reflexivity|].
    cbn [runes] in E. rewrite E1, E2, E3 in E. cbn [app] in E.
    injection E as <- E. rewrite bytesOf_cons. cbn [snd append runes].
    rewrite E1, E2, E3. f_equal. now apply (IH _ tail).
  - intros c s1 Hp IH [|r keep] tail E; [reflexivity|].
    rewrite runes_plain in E by exact Hp. cbn [app] in E.
    injection E as <- E. rewrite bytesOf_cons. cbn [snd append].
    rewrite runes_plain.
    + f_equal. now apply (IH _ tail).
    + apply (plainHead_prefix c _ (bytesOf tail)).
      now rewrite <- bytesOf_app, <- E, runes_bytes.
Qed.

(** A suffix of the runes of a text is the runes of its own bytes. *)
Lemma runes_suffix (s : string) :
  forall pre suf, runes s = pre ++ suf -> runes (bytesOf suf) = suf.
Proof.
  pattern s. apply runes_ind; clear s.
  - intros pre suf E. cbn [runes] in E. symmetry in E.
    apply app_eq_nil in E. destruct E as [_ ->]. reflexivity.
  - intros c s1 E1 IH [|r pre] suf E.
    + cbn [app] in E. subst suf. now rewrite runes_bytes.
    + rewrite runes_space1 in E by exact E1. injection E as _ E.
      now apply (IH pre).
  - intros c d s2 E1 E2 IH [|r pre] suf E.
    + cbn [app] in E. subst suf. now rewrite runes_bytes.
    + cbn [runes] in E. rewrite E1, E2 in E. injection E as _ E.
      now apply (IH pre).
  - intros c d e s3 E1 E2 E3 IH [|r pre] suf E.
    + cbn [app] in E. subst suf. now rewrite runes_bytes.
    + cbn [runes] in E. rewrite E1, E2, E3 in E. injection E as _ E.
      now apply (IH pre).
  - intros c s1 Hp IH [|r pre] suf E.
    + cbn [app] in E. subst suf. now rewrite runes_bytes.
    + rewrite runes_plain in E by exact Hp. injection E as _ E.
      now apply (IH pre).
Qed.

Lemma dropSpace_suffix (rs : list (bool * string)) :
  exists pre, rs = pre ++ dropSpace rs.
Proof.
  induction rs as [|[[|] b] rs [pre IH]].
  - now exists [].
  - exists ((true, b) :: pre). cbn [dropSpace app]. now rewrite <- IH.
  - now exists [].
Qed.

Lemma dropSpace_head (rs : list (bool * string)) :
  dropSpace rs = [] \/ exists b rs', dropSpace rs = (false, b) :: rs'.
Proof.
  induction rs as [|[[|] b] rs IH]; cbn [dropSpace]; [now left|exact IH|].
  right. now exists b, rs.
Qed.

(** The runes of a trimmed text: those of the text without the white space
    at both ends. *)
Lemma runes_TrimSpace (s : string) :
  runes (TrimSpace s) = rev (dropSpace (rev (dropSpace (runes s)))).
Proof.
  unfold TrimSpace.
  destruct (dropSpace_suffix (runes s)) as [pre Hpre].
  pose proof (runes_suffix s _ _ Hpre) as Hsuf.
  destruct (dropSpace_suffix (rev (dropSpace (runes s)))) as [pre' Hpre'].
  apply (f_equal (@rev _)) in Hpre'. rewrite rev_involutive, rev_app_distr in Hpre'.
  rewrite Hpre' in Hsuf at 2.
  exact (runes_prefix _ _ _ Hsuf).
Qed.

(** A trimmed text that is not empty ends on a rune that is no white
    space. *)
Lemma runes_TrimSpace_last (s : string) :
  runes (TrimSpace s) = []
  \/ exists rs b, runes (TrimSpace s) = rs ++ [(false, b)].
Proof.
  rewrite runes_TrimSpace.
  destruct (dropSpace_head (rev (dropSpace (runes s)))) as [->|(b & rs' & ->)];
    [now left|right].
  exists (rev rs'), b. reflexivity.
Qed.

Lemma fieldsAux_some (R : list (bool * string)) :
  forall f, f <> "" ->
    exists g fs, fieldsAux R (Some f) = g :: fs /\ g <> "".
Proof.
  induction R as [|[[|] b] R IH]; intros f Hf; cbn [fieldsAux].
  - now exists f, [].
  - now exists f, (fieldsAux R None).
  - apply IH. destruct f; [congruence|discriminate].
Qed.

(** A text with a rune that is no white space has a first field, and it is
    not empty. *)
Lemma fieldsAux_first (R : list (bool * string)) :
  Forall runeOK R ->
  Exists (fun r => fst r = false) R ->
  exists g fs, fieldsAux R None = g :: fs /\ g <> "".
Proof.
  induction 1 as [|[[|] b] R [Hb _] HR IH]; intros Hex.
  - inversion Hex.
  - inversion Hex as [? ? Hx|? ? Hx]; subst; [discriminate|].
    cbn [fieldsAux]. now apply IH.
  - cbn [fieldsAux]. now apply fieldsAux_some.
Qed.

Lemma fieldsAux_word_None (w : string) (R : list (bool * string)) :
  w <> "" -> fieldsAux (chunksOf w ++ R) None = fieldsAux R (Some w).
Proof.
  destruct w as [|c w]; [congruence|]. intros _.
  change (chunksOf (String c w)) with ((false, String c "") :: chunksOf w).
  cbn [app fieldsAux]. now rewrite fieldsAux_word.
Qed.

(** The fields of a declaration line: the keyword, then a field that is not
    empty. *)
Lemma Fields_of_declaration (raw kw rest : string) :
  In kw blockTypes ->
  TrimSpace raw = (kw ++ " " ++ rest)%string ->
  exists f fs, Fields (TrimSpace raw) = kw :: f :: fs /\ f <> "".
Proof.
  intros Hkw E.
  assert (Hw : plainWord kw = true /\ kw <> "").
  { simpl in Hkw. destruct Hkw as [<-|[<-|[<-|[<-|[]]]]]; now split. }
  destruct Hw as [Hw Hne].
  assert (Hr : runes (TrimSpace raw) = chunksOf kw ++ (true, " ") :: runes rest).
  { rewrite E, runes_word by exact Hw. cbn [append].
    now rewrite runes_space1 by reflexivity. }
  assert (Hex : Exists (fun r => fst r = false) (runes rest)).
  { destruct (runes_TrimSpace_last raw) as [E0|(rs & b & El)].
    - rewrite Hr in E0. apply app_eq_nil in E0. destruct E0 as [_ E0].
      discriminate.
    - rewrite Hr in El.
      destruct (runes rest) as [|r0 R0] eqn:ER.
      + change (chunksOf kw ++ [(true, " ")]) with (chunksOf kw ++ [(true, " ")])
          in El.
        apply app_inj_tail in El. destruct El as [_ El]. discriminate.
      + destruct (exists_last (l := r0 :: R0)) as (R1 & x & Ex); [discriminate|].
        rewrite Ex in *.
        replace (chunksOf kw ++ (true, " ") :: R1 ++ [x])
          with ((chunksOf kw ++ (true, " ") :: R1) ++ [x]) in El
          by now rewrite <- app_assoc.
        apply app_inj_tail in El. destruct El as [_ ->].
        apply Exists_exists. exists (false, b). split; [|reflexivity].
        apply in_or_app. right. now left. }
  unfold Fields. rewrite Hr, fieldsAux_word_None by exact Hne.
  cbn [fieldsAux].
  destruct (fieldsAux_first (runes rest) (runes_OK rest) Hex) as (f & fs & -> & Hf).
  now exists f, fs.
Qed.

(** What the loop over the keywords returns when it finds one. *)
Lemma matchBlockType_match (line : string) (bts : list string) :
  fst (matchBlockType line bts) <> "" ->
  In (fst (matchBlockType line bts)) bts
  /\ (exists rest, line = (fst (matchBlockType line bts) ++ " " ++ rest)%string)
  /\ snd (matchBlockType line bts)
     = if (2 <=? List.length (Fields line))%nat
       then nth 1 (Fields line) "" else "".
Proof.
  induction bts as [|bt bts IH]; cbn [matchBlockType]; [now intros []|].
  destruct (HasPrefix line (bt ++ " ")) eqn:E; cbn [fst snd].
  - intros _. split; [now left|]. split; [|reflexivity].
    unfold HasPrefix in E. apply prefix_app_iff in E. destruct E as [rest E].
    exists rest. now rewrite E, append_assoc.
  - intros H. destruct (IH H) as (H1 & H2 & H3). split; [now right|].
    now split.
Qed.

(** X9.  Every generator, datasource, model and enum block of the scanner
    is named: its kind is the keyword its trimmed start line begins with,
    its name is the second field of that line, and the name is never
    empty. *)
Theorem declared_blocks_named (p : SchemaParser) :
  Forall (fun b =>
            In (Type_ b) blockTypes ->
            exists rest more,
              TrimSpace (nth (StartPos b) (linesOf p) "")
              = (Type_ b ++ " " ++ rest)%string
              /\ Fields (TrimSpace (nth (StartPos b) (linesOf p) ""))
                 = Type_ b :: Name b :: more
              /\ Name b <> "")
    (fst (parseBlocks p)).
Proof.
  rewrite parseBlocks_parseFrom. fold (linesOf p).
  induction (parseFrom_scan (linesOf p) 0)
    as [i Hi | i bs Hi Hb _ IH | i bs Hi Hb Hc _ IH
        | i b e bs Hi Hb Hc Hp _ IH | i bs Hi Hb Hc Hp _ IH];
    try constructor; auto.
  - simpl. intros [H|[H|[H|[H|[]]]]]; discriminate.
  - intros _.
    pose proof (parseBlockAt_found _ _ _ _ Hi Hp) as (_ & Hs & _).
    rewrite Hs. clear Hs. revert Hp. unfold parseBlockAt.
    pose proof (matchBlockType_match (TrimSpace (nth i (linesOf p) "")) blockTypes)
      as Hm.
    destruct (matchBlockType (TrimSpace (nth i (linesOf p) "")) blockTypes)
      as [bt bn]. cbn [fst snd] in Hm.
    destruct (String.eqb_spec bt "") as [|Hbt]; [discriminate|].
    destruct (Hm Hbt) as (Hin & [rest Hrest] & Hn). cbv zeta.
    match goal with |- context [if (?x =? -1)%Z then _ else _] =>
      destruct (x =? -1)%Z; [discriminate|] end.
    destruct (scanLines (skipn i (linesOf p)) i 0 [] i) as [[bc cl] e1].
    destruct (negb (bc =? 0)%Z); [discriminate|].
    intros [= <- _]. cbn [Type_ Name].
    destruct (Fields_of_declaration _ _ _ Hin Hrest) as (f & fs & HF & Hf).
    rewrite HF in Hn. cbn in Hn. subst bn.
    exists rest, fs. now repeat split.
  - simpl. intros [H|[H|[H|[H|[]]]]]; discriminate.
Qed.

(* ================================================================= *)
(** ** When no block is reported *)

(** X10.  [parseBlockAt] reports no block, and then returns the zero block
    and line 0, exactly in three cases: the trimmed start line is no
    declaration; or there is no opening brace from the start line to the end
    of the input; or no closing brace brings the counter to zero and the
    counter is not zero at the end of the input. *)
Theorem parseBlockAt_none_iff (lines : list string) (s : nat) :
  s < List.length lines ->
  (parseBlockAt lines s = (zeroBlock, 0, false)
   <-> ~ declares (TrimSpace (nth s lines ""))
       \/ opens (flatten (skipn s lines)) = 0
       \/ (noCloseIn 0 (flatten (skipn s lines))
           /\ depth (flatten (skipn s lines)) <> 0%Z)).
Proof.
  intros Hs. unfold parseBlockAt.
  pose proof (matchBlockType_iff (TrimSpace (nth s lines ""))) as Hd.
  destruct (matchBlockType (TrimSpace (nth s lines "")) blockTypes) as [bt bn].
  cbn [fst] in Hd.
  destruct (String.eqb_spec bt "") as [Hbt|Hbt].
  { split; [|reflexivity]. intros _. left. intros H. now apply Hd in H. }
  apply Hd in Hbt. cbv zeta.
  match goal with |- context [if (?x =? -1)%Z then _ else _] =>
    destruct (Z.eqb_spec x (-1)) as [Hb|Hb] end.
  { split; [|reflexivity]. intros _. right. left.
    destruct (Nat.eq_0_gt_0_cases (opens (flatten (skipn s lines))))
      as [Z0|Hpos]; [exact Z0|].
    now apply open_brace_found in Hpos. }
  apply open_brace_needed in Hb; [|exact Hs].
  destruct (scanLines (skipn s lines) s 0 [] s) as [[bc cl] e1] eqn:Escan.
  pose proof (scanLines_cases _ _ _ _ _ _ _ _ Escan) as Hcases.
  destruct (Z.eqb_spec bc 0) as [Hz|Hnz]; cbn [negb].
  - split; [discriminate|].
    intros [H|[H|[Hn Hdp]]]; [contradiction|lia|].
    exfalso. pose proof (countBraces_no_close _ _ Hn) as Hc.
    rewrite scanLines_exhausted in Escan by now rewrite Hc.
    rewrite Hc in Escan. injection Escan as E _ _. lia.
  - split; [|reflexivity]. intros _. right. right.
    destruct Hcases as [(Hn & -> & _)|(pre & l & post & p & q & _ & _ & _ & _ & _ & _ & ->)];
      [|congruence].
    split; [exact Hn|lia].
Qed.

(* ================================================================= *)
(** ** Concrete scans *)

Lemma nestedModel_closesOn : closesOn nestedModel 1 3 "".
Proof.
  split; [now exists " rest {"|]. split; [reflexivity|].
  apply countBraces_open. reflexivity.
Defined.

Lemma parseBlockAt_closes_witness :
  parseBlockAt nestedModel 1
  = (mkBlock
       (fst (matchBlockType (TrimSpace (nth 1 nestedModel "")) blockTypes))
       (snd (matchBlockType (TrimSpace (nth 1 nestedModel "")) blockTypes))
       (Join (lineRange nestedModel 1 3) nl) 1 3,
     3, true).
Proof.
  apply (parseBlockAt_closes nestedModel 1 3 "").
  - simpl. lia.
  - exists "model", "A {". split; [simpl; tauto|reflexivity].
  - exact nestedModel_closesOn.
Defined.

Lemma parseBlockAt_found_cases_witness :
  declares (TrimSpace (nth 1 nestedModel ""))
  /\ 0 < opens (flatten (skipn 1 nestedModel))
  /\ exists p, closesOn nestedModel 1 3 p.
Proof.
  destruct (parseBlockAt_found_cases nestedModel 1
              (mkBlock "model" "A"
                 (schema ["model A {"; "  x { }"; "} rest {"]) 1 3) 3)
    as (Hd & _ & _ & _ & _ & Ho & Hc).
  - simpl. lia.
  - reflexivity.
  - split; [exact Hd|]. split; [exact Ho|].
    destruct Hc as [(_ & Hp & _)|(He & _)]; [exact Hp|discriminate He].
Defined.

Lemma parseBlockAt_none_iff_witness :
  parseBlockAt ["model A {"; "x"] 0 = (zeroBlock, 0, false)
  <-> ~ declares (TrimSpace (nth 0 ["model A {"; "x"] ""))
      \/ opens (flatten (skipn 0 ["model A {"; "x"])) = 0
      \/ (noCloseIn 0 (flatten (skipn 0 ["model A {"; "x"]))
          /\ depth (flatten (skipn 0 ["model A {"; "x"])) <> 0%Z).
Proof. apply (parseBlockAt_none_iff ["model A {"; "x"] 0). simpl. lia. Defined.

(* ================================================================= *)
(** * The scanner on declarations it does not close *)

(* ================================================================= *)
(** ** Giving up on a declaration *)

(** No closing brace brings the counter to zero and the counter is not zero
    at the end of the input: [parseBlockAt] reports no block. *)
Lemma parseBlockAt_no_close (lines : list string) (i : nat) :
  noCloseIn 0 (flatten (skipn i lines)) ->
  depth (flatten (skipn i lines)) <> 0%Z ->
  parseBlockAt lines i = (zeroBlock, 0, false).
Proof.
  intros Hn Hd. unfold parseBlockAt.
  destruct (matchBlockType (TrimSpace (nth i lines "")) blockTypes) as [bt bn].
  destruct (bt =? ""); [reflexivity|]. cbv zeta.
  match goal with |- context [if (?x =? -1)%Z then _ else _] =>
    destruct (x =? -1)%Z; [reflexivity|] end.
  pose proof (countBraces_no_close _ _ Hn) as Hc.
  rewrite scanLines_exhausted by now rewrite Hc.
  rewrite Hc. cbn [fst].
  destruct (Z.eqb_spec (0 + depth (flatten (skipn i lines))) 0);
    [lia|reflexivity].
Qed.

(** No opening brace from the start line on: [parseBlockAt] reports no
    block. *)
Lemma parseBlockAt_no_brace (lines : list string) (i : nat) :
  i < List.length lines ->
  opens (flatten (skipn i lines)) = 0 ->
  parseBlockAt lines i = (zeroBlock, 0, false).
Proof.
  intros Hi Ho. unfold parseBlockAt.
  destruct (matchBlockType (TrimSpace (nth i lines "")) blockTypes) as [bt bn].
  destruct (bt =? ""); [reflexivity|]. cbv zeta.
  match goal with |- context [if (?x =? -1)%Z then _ else _] =>
    destruct (Z.eqb_spec x (-1)) as [|Hb]; [reflexivity|] end.
  apply open_brace_needed in Hb; [lia|exact Hi].
Qed.

(** The scanner on a declaration line that [parseBlockAt] gives up on. *)
Lemma parseFrom_gives_up (lines : list string) (i : nat) :
  i < List.length lines ->
  declares (TrimSpace (nth i lines "")) ->
  parseBlockAt lines i = (zeroBlock, 0, false) ->
  parseFrom lines i = otherBlock lines i :: parseFrom lines (i + 1).
Proof.
  intros Hi Hd Hp. destruct (declares_not_skipped _ Hd) as [Hb Hc].
  rewrite parseFrom_unfold by exact Hi. cbv zeta.
  apply String.eqb_neq in Hb. now rewrite Hb, Hc, Hp.
Qed.

Lemma FilterByGenerator_no_parse_error (p : SchemaParser) (g : string)
    (e : error) :
  FilterByGenerator p g <> ("", Some (ErrParseBlocks e)).
Proof.
  rewrite FilterByGenerator_unfold.
  destruct (existsb (matchesGenerator g) (fst (parseBlocks p))); discriminate.
Qed.

(** An opening brace that stays open is a case of the above. *)
Lemma unmatchedOpen_no_close (s : string) :
  unmatchedOpen s -> noCloseIn 0 s /\ depth s <> 0%Z.
Proof.
  intros [Ho Hu].
  pose proof (countBraces_unmatched s 0 0) as Hc. simpl in Hc.
  specialize (Hc Hu).
  assert (Hs : snd (countBraces s 0) = false) by now rewrite Hc.
  destruct (countBraces_open _ _ Hs) as [Hn _]. split; [exact Hn|].
  assert (Hlt : closes s < opens s).
  { apply (Hu s ""); [now rewrite append_nil_r|exact Ho]. }
  unfold depth. lia.
Qed.

(** C1, as amended.  A recognized declaration after which no closing brace
    brings the brace counter back to zero, the counter being not zero at the
    end of the input -- as when its opening brace is never closed -- raises
    no error: [parseBlockAt] reports no block, the scanner with its cursor
    on the declaration line emits that line alone as an [other] block and
    goes on with the next line, [parseBlocks] returns a nil error, and
    [FilterByGenerator] never returns a parse error, whatever the requested
    generator. *)
Theorem unmatched_declaration_degrades (p : SchemaParser) (i : nat) :
  i < List.length (linesOf p) ->
  declares (TrimSpace (nth i (linesOf p) "")) ->
  noCloseIn 0 (flatten (skipn i (linesOf p))) ->
  depth (flatten (skipn i (linesOf p))) <> 0%Z ->
  parseBlockAt (linesOf p) i = (zeroBlock, 0, false)
  /\ parseFrom (linesOf p) i
     = otherBlock (linesOf p) i :: parseFrom (linesOf p) (i + 1)
  /\ snd (parseBlocks p) = None
  /\ forall g e, FilterByGenerator p g <> ("", Some (ErrParseBlocks e)).
Proof.
  intros Hi Hd Hn Hz.
  pose proof (parseBlockAt_no_close _ _ Hn Hz) as Hp.
  split; [exact Hp|]. split; [now apply parseFrom_gives_up|].
  split; [reflexivity|]. intros g e. apply FilterByGenerator_no_parse_error.
Qed.

Lemma unmatched_declaration_degrades_witness :
  parseBlockAt (linesOf unclosedSchema) 1 = (zeroBlock, 0, false)
  /\ parseFrom (linesOf unclosedSchema) 1
     = otherBlock (linesOf unclosedSchema) 1
       :: parseFrom (linesOf unclosedSchema) (1 + 1)
  /\ snd (parseBlocks unclosedSchema) = None
  /\ forall g e,
       FilterByGenerator unclosedSchema g <> ("", Some (ErrParseBlocks e)).
Proof.
  apply (unmatched_declaration_degrades unclosedSchema 1).
  - vm_compute. lia.
  - exists "model", "Foo {". split; [simpl; tauto|reflexivity].
  - apply countBraces_open. reflexivity.
  - vm_compute. discriminate.
Defined.

(** Closing braces ahead of the opening one, the counter below zero at the
    end: the case is covered too. *)
Example two_stray_braces_give_up :
  parseBlockAt ["model A } } {"; "x"] 0 = (zeroBlock, 0, false)
  /\ noCloseIn 0 (flatten ["model A } } {"; "x"])
  /\ depth (flatten ["model A } } {"; "x"]) = (-1)%Z.
Proof.
  split; [reflexivity|]. split; [|reflexivity].
  apply countBraces_open. reflexivity.
Qed.

(** C10, as amended.  [parseBlocks] returns a nil error on every input: the
    loop ends with any fuel from [len(lines)] on and its result is a run of
    the loop; the only error [FilterByGenerator] can return is the
    generator-not-found error, with an empty output; and a declaration at
    the scanner's cursor with no opening brace from its line on, or after
    which no closing brace brings the counter to zero while the counter is
    not zero at the end of the input, is given up by [parseBlockAt] and
    emitted as an [other] block of that one line. *)
Theorem parseBlocks_never_fails (p : SchemaParser) :
  snd (parseBlocks p) = None
  /\ (forall extra : nat,
        parseLoop (List.length (linesOf p) + extra) (linesOf p) 0 []
        = fst (parseBlocks p))
  /\ scan (linesOf p) 0 (fst (parseBlocks p))
  /\ (forall g : string,
        FilterByGenerator p g = ("", Some (ErrGeneratorNotFound g))
        \/ exists out, FilterByGenerator p g = (out, None))
  /\ (forall i : nat,
        i < List.length (linesOf p) ->
        declares (TrimSpace (nth i (linesOf p) "")) ->
        opens (flatten (skipn i (linesOf p))) = 0
        \/ (noCloseIn 0 (flatten (skipn i (linesOf p)))
            /\ depth (flatten (skipn i (linesOf p))) <> 0%Z) ->
        parseBlockAt (linesOf p) i = (zeroBlock, 0, false)
        /\ parseFrom (linesOf p) i
           = otherBlock (linesOf p) i :: parseFrom (linesOf p) (i + 1)).
Proof.
  split; [reflexivity|]. split; [|split; [|split]].
  - intros extra. unfold parseBlocks, linesOf. simpl.
    apply parseLoop_fuel; lia.
  - rewrite parseBlocks_parseFrom. apply parseFrom_scan.
  - intros g. rewrite FilterByGenerator_unfold.
    destruct (existsb (matchesGenerator g) (fst (parseBlocks p)));
      [right; eauto|now left].
  - intros i Hi Hd Hc.
    assert (Hp : parseBlockAt (linesOf p) i = (zeroBlock, 0, false)).
    { destruct Hc as [Ho|[Hn Hz]];
        [now apply parseBlockAt_no_brace|now apply parseBlockAt_no_close]. }
    split; [exact Hp|now apply parseFrom_gives_up].
Qed.

Lemma parseBlocks_never_fails_witness :
  parseBlockAt (linesOf braceless) 0 = (zeroBlock, 0, false)
  /\ parseFrom (linesOf braceless) 0
     = otherBlock (linesOf braceless) 0 :: parseFrom (linesOf braceless) (0 + 1).
Proof.
  destruct (parseBlocks_never_fails braceless) as (_ & _ & _ & _ & H).
  apply H.
  - vm_compute. lia.
  - exists "model", "Foo". split; [simpl; tauto|reflexivity].
  - left. reflexivity.
Defined.

(** C10, as stated, fails: the braces of [enum E }{] are not matched -- no
    closing brace brings the counter to zero -- and the scanner emits the
    declaration as an [enum] block, with the next line in its text, not as
    an [other] block. *)
Lemma stray_declaration_is_a_block :
  declares (TrimSpace (nth 0 (linesOf strayEnum) ""))
  /\ strayClose (linesOf strayEnum) 0
  /\ fst (parseBlocks strayEnum)
     = [mkBlock "enum" "E" (schema ["enum E }{"; "y"]) 0 0;
        mkBlock "other" "" "y" 1 1]
  /\ parseFrom (linesOf strayEnum) 0
     <> otherBlock (linesOf strayEnum) 0 :: parseFrom (linesOf strayEnum) (0 + 1).
Proof.
  split; [|split; [|split]].
  - exists "enum", "E }{". split; [simpl; tauto|reflexivity].
  - split; [vm_compute; lia|]. split; [|reflexivity].
    apply countBraces_open. reflexivity.
  - reflexivity.
  - vm_compute. discriminate.
Qed.

(* ================================================================= *)
(** ** Blocks that are the text of their range *)

Lemma noStrayCloseb_sound (lines : list string) :
  noStrayCloseb lines = true -> noStrayClose lines.
Proof.
  unfold noStrayCloseb. rewrite forallb_forall.
  intros H s Hs Hd (Ho & Hn & Hz).
  specialize (H s). rewrite in_seq in H.
  assert (Hin : 0 <= s < 0 + List.length lines) by lia.
  specialize (H Hin). apply negb_true_iff in H.
  apply matchBlockType_iff in Hd. apply String.eqb_neq in Hd.
  unfold declaresb in H. rewrite Hd in H. cbn [negb andb] in H.
  unfold strayCloseb in H.
  rewrite (countBraces_no_close _ _ Hn) in H. cbn [fst snd negb] in H.
  apply Nat.ltb_lt in Ho. rewrite Ho, Hz in H. discriminate.
Qed.

(** A reported block is the text of its line range, unless the braces from
    its start line on balance without closing. *)
Lemma parseBlockAt_ranged_or_stray (lines : list string) (s : nat)
    (b : SchemaBlock) (e : nat) :
  s < List.length lines ->
  parseBlockAt lines s = (b, e, true) ->
  wellRanged lines b = true
  \/ (declares (TrimSpace (nth s lines "")) /\ strayClose lines s).
Proof.
  intros Hs. unfold parseBlockAt.
  pose proof (matchBlockType_iff (TrimSpace (nth s lines ""))) as Hd.
  destruct (matchBlockType (TrimSpace (nth s lines "")) blockTypes) as [bt bn].
  cbn [fst] in Hd.
  destruct (String.eqb_spec bt "") as [|Hbt]; [discriminate|].
  cbv zeta.
  match goal with |- context [if (?x =? -1)%Z then _ else _] =>
    destruct (Z.eqb_spec x (-1)) as [|Hb]; [discriminate|] end.
  apply open_brace_needed in Hb; [|exact Hs].
  destruct (scanLines (skipn s lines) s 0 [] s) as [[bc cl] e1] eqn:Escan.
  destruct (Z.eqb_spec bc 0) as [->|]; [|discriminate].
  cbn [negb]. intros [= <- <-].
  apply scanLines_cases in Escan.
  destruct Escan as [(Hn & Hz & _ & _)
                    |(pre & l & post & p' & q & Hsplit & -> & _ & _ & _ & -> & _)].
  - right. split; [now apply Hd|]. split; [exact Hb|]. split; [exact Hn|lia].
  - left. unfold wellRanged. cbn [Content StartPos EndPos app].
    unfold lineRange. rewrite Hsplit.
    replace (s + List.length pre - s + 1) with (List.length pre + 1) by lia.
    rewrite firstn_app.
    replace (List.length pre + 1 - List.length pre) with 1 by lia.
    rewrite firstn_all2 by lia. cbn [firstn]. apply String.eqb_refl.
Qed.

Lemma scan_ranged_or_stray (lines : list string) (i : nat) (bs : list SchemaBlock) :
  noStrayClose lines -> scan lines i bs -> forallb (wellRanged lines) bs = true.
Proof.
  intros Hno Hs.
  assert (Hone : forall j, j < List.length lines ->
            Join (lineRange lines j j) nl = nth j lines "").
  { intros j Hj. rewrite lineRange_nth by lia.
    now replace (j - j + 1) with 1 by lia. }
  induction Hs as [i Hi | i bs Hi Hb _ IH | i bs Hi Hb Hc _ IH
                  | i b e bs Hi Hb Hc Hp _ IH | i bs Hi Hb Hc Hp _ IH];
    cbn [forallb]; auto.
  - rewrite IH. unfold wellRanged, commentBlock. cbn [Content StartPos EndPos].
    rewrite Hone by exact Hi. now rewrite String.eqb_refl.
  - rewrite IH.
    destruct (parseBlockAt_ranged_or_stray _ _ _ _ Hi Hp) as [->|[Hd Hst]];
      [reflexivity|].
    exfalso. exact (Hno i Hi Hd Hst).
  - rewrite IH. unfold wellRanged, otherBlock. cbn [Content StartPos EndPos].
    rewrite Hone by exact Hi. now rewrite String.eqb_refl.
Qed.

(** Without a blank text among the blocks, the serializer decides by the
    kind of the next block alone. *)
Lemma reconstructSchema_layout (bs : list SchemaBlock) :
  Forall (fun b => TrimSpace (Content b) <> "") bs ->
  reconstructSchema bs = Join (layout bs) nl.
Proof.
  intros Hbs. unfold reconstructSchema. rewrite reconstructLoop_spec.
  cbn [app]. f_equal. destruct Hbs as [|b0 rest _ Hrest]; [reflexivity|].
  cbn [reconstructSpec layout]. f_equal.
  induction Hrest as [|b rest Hb _ IH]; [reflexivity|].
  cbn [flat_map]. rewrite IH. f_equal. f_equal.
  unfold separatorBefore, separatorOfKind.
  apply String.eqb_neq in Hb. rewrite Hb. now rewrite orb_false_r.
Qed.

(* ================================================================= *)
(** ** Round trip *)

(** C9, as amended.  For a schema with exactly one generator block, named
    as requested, the pipeline succeeds and returns the serialization of all
    scanned blocks: their texts in order, joined by newlines, with one blank
    line in front of every block that is neither the first nor a comment and
    none elsewhere between blocks, whatever blank lines the schema had
    there.  When moreover no declaration line of the schema is followed by
    braces that balance at the end of the input without a closing brace
    bringing the counter to zero, the non-blank lines of the output are the
    non-blank lines of the schema, in order. *)
Theorem roundtrip_single_generator (p : SchemaParser) (g : string)
    (gb : SchemaBlock) :
  filter isGenerator (fst (parseBlocks p)) = [gb] ->
  Name gb = g ->
  FilterByGenerator p g = (reconstructSchema (fst (parseBlocks p)), None)
  /\ reconstructSchema (fst (parseBlocks p))
     = Join (layout (fst (parseBlocks p))) nl
  /\ (noStrayClose (linesOf p) ->
      nonBlankLines (reconstructSchema (fst (parseBlocks p)))
      = nonBlankLines (content p)).
Proof.
  intros Hg Hn.
  assert (Hin : In gb (fst (parseBlocks p)) /\ isGenerator gb = true).
  { apply filter_In. rewrite Hg. now left. }
  destruct Hin as [Hin Hgb].
  pose proof (parseFrom_scan (Split (content p) LF) 0) as Hscan.
  rewrite <- parseBlocks_parseFrom in Hscan.
  split; [|split].
  - rewrite FilterByGenerator_unfold.
    assert (He : existsb (matchesGenerator g) (fst (parseBlocks p)) = true).
    { apply existsb_exists. exists gb. split; [exact Hin|].
      unfold matchesGenerator. rewrite Hgb, Hn. now rewrite String.eqb_refl. }
    rewrite He. f_equal. f_equal.
    apply forallb_filter_id. apply forallb_forall. intros b Hb.
    unfold retained. destruct (isGenerator b) eqn:Eb; [|reflexivity].
    assert (Hb' : In b (filter isGenerator (fst (parseBlocks p))))
      by (apply filter_In; now split).
    rewrite Hg in Hb'. destruct Hb' as [<-|[]].
    rewrite Hn. simpl. apply String.eqb_refl.
  - apply reconstructSchema_layout. exact (scan_text_not_blank _ _ _ Hscan).
  - intros Hno. unfold nonBlankLines. rewrite reconstructSchema_nonBlank_lines.
    + apply scan_nonBlank; [apply Split_pieces|exact Hscan|].
      exact (scan_ranged_or_stray _ _ _ Hno Hscan).
    + intros E. now rewrite E in Hin.
Qed.

Lemma roundtrip_single_generator_witness :
  FilterByGenerator commentedSchema "a"
  = (reconstructSchema (fst (parseBlocks commentedSchema)), None)
  /\ reconstructSchema (fst (parseBlocks commentedSchema))
     = Join (layout (fst (parseBlocks commentedSchema))) nl
  /\ nonBlankLines (reconstructSchema (fst (parseBlocks commentedSchema)))
     = nonBlankLines (content commentedSchema).
Proof.
  destruct (roundtrip_single_generator commentedSchema "a"
              (mkBlock "generator" "a"
                 (schema ["generator a {"; "  provider = x"; "}"]) 2 4))
    as (H1 & H2 & H3); [reflexivity|reflexivity|].
  split; [exact H1|]. split; [exact H2|].
  apply H3. apply noStrayCloseb_sound. reflexivity.
Defined.
